(** * AuthRepository: sign-in state machine and credential cache codec

    A shallow embedding of
    [MyDID_app/.../fido2/repository/AuthRepository.kt].

    Conventions of the embedding:
    - a Kotlin [String] is a [string]; characters are the code units below 256;
    - a [Set<String>] is the list of its elements in iteration order;
    - [SharedPreferences] is a finite map from keys to typed values;
    - a block run by [executor.execute] is a state transformer on the
      repository that either returns or throws; blocks are run one at a time,
      but for [signinResponse_meanwhile], where a second block of the pool
      runs inside the first;
    - everything the block does to the outside (listener calls, log lines,
      [postValue], preference writes, API calls) is appended to a trace. *)

From stdpp Require Import gmap strings list.
From Stdlib Require Import ZArith Lia Ascii String List Permutation Sorted.
From Stdlib Require Import DecimalString DecimalNat DecimalFacts.
Import ListNotations.

Local Open Scope string_scope.
Local Open Scope list_scope.
Local Open Scope Z_scope.

(** ** Throwables and results *)

Inductive Throwable : Type :=
| ApiException (message : option string)
| NullPointerException
| IndexOutOfBoundsException
| ClassCastException
| OtherException (description : string)
| OtherError (description : string).

(** [catch (e: Exception)] takes every throwable but the [Error]s. *)
Definition isException (e : Throwable) : bool :=
  match e with
  | OtherError _ => false
  | _ => true
  end.

Inductive Result (A : Type) : Type :=
| Returns (a : A)
| Throws (e : Throwable).
Arguments Returns {A} a.
Arguments Throws {A} e.

(** ** Strings *)

(** [String.compareTo]: the difference of the first two differing
    characters, or else the difference of the lengths. *)
Fixpoint compareTo (a b : string) : Z :=
  match a, b with
  | String c1 a', String c2 b' =>
      if Ascii.eqb c1 c2 then compareTo a' b'
      else Z.of_N (N_of_ascii c1) - Z.of_N (N_of_ascii c2)
  | _, _ => Z.of_nat (String.length a) - Z.of_nat (String.length b)
  end.

(** [CharSequence.split(delimiter)] with one single-character delimiter and
    no limit: every occurrence splits, empty fields are kept, and the result
    has at least one field. *)
Fixpoint split (delim : ascii) (s : string) : list string :=
  match s with
  | EmptyString => [EmptyString]
  | String c s' =>
      if Ascii.eqb c delim then EmptyString :: split delim s'
      else match split delim s' with
           | [] => [String c EmptyString]
           | f :: fs => String c f :: fs
           end
  end.

Fixpoint contains (delim : ascii) (s : string) : bool :=
  match s with
  | EmptyString => false
  | String c s' => Ascii.eqb c delim || contains delim s'
  end.

(** [Char.isWhitespace] on the code units below 256. *)
Definition isWhitespace (c : ascii) : bool :=
  let n := N_of_ascii c in
  ((9 <=? n) && (n <=? 13) || (28 <=? n) && (n <=? 32) || (n =? 160))%N.

Fixpoint all_chars (p : ascii -> bool) (s : string) : bool :=
  match s with
  | EmptyString => true
  | String c s' => p c && all_chars p s'
  end.

(** [CharSequence.isBlank]: empty, or whitespace only. *)
Definition isBlank (s : string) : bool := all_chars isWhitespace s.

(** [CharSequence?.isNullOrBlank]. *)
Definition isNullOrBlank (s : option string) : bool :=
  match s with
  | None => true
  | Some s => isBlank s
  end.

(** [Int.toString] of a list index (never negative). *)
Definition Int_toString (i : nat) : string :=
  NilEmpty.string_of_uint (Nat.to_uint i).

(** ** Credential cache codec *)

Record Credential : Type := mkCredential { id : string; publicKey : string }.

Definition DELIM : ascii := ";"%char.

Fixpoint mapIndexed_from {A B : Type} (f : nat -> A -> B) (i : nat) (l : list A)
  : list B :=
  match l with
  | [] => []
  | a :: l' => f i a :: mapIndexed_from f (S i) l'
  end.

Definition mapIndexed {A B : Type} (f : nat -> A -> B) (l : list A) : list B :=
  mapIndexed_from f 0 l.

(** [Iterable.toSet]: a [LinkedHashSet], the first occurrence of each element
    in the order of the list. *)
Fixpoint toSet (l : list string) : list string :=
  match l with
  | [] => []
  | s :: l' => s :: List.filter (fun t => negb (String.eqb s t)) (toSet l')
  end.

(** The template ["$index;${credential.id};${credential.publicKey}"]. *)
Definition record_of (index : nat) (credential : Credential) : string :=
  Int_toString index
  +:+ String DELIM (id credential +:+ String DELIM (publicKey credential)).

Definition toStringSet (credentials : list Credential) : list string :=
  toSet (mapIndexed record_of credentials).

(** [val (index, id, publicKey) = s.split(";")]: [component3()] throws on a
    list of fewer than three fields; further fields are not looked at. *)
Definition parseRecord (s : string) : Result (string * Credential) :=
  match split DELIM s with
  | index :: id :: publicKey :: _ => Returns (index, mkCredential id publicKey)
  | _ => Throws IndexOutOfBoundsException
  end.

(** [Iterable.map] with a body that may throw: the first throw ends it. *)
Fixpoint mapR {A B : Type} (f : A -> Result B) (l : list A) : Result (list B) :=
  match l with
  | [] => Returns []
  | a :: l' =>
      match f a with
      | Throws e => Throws e
      | Returns b =>
          match mapR f l' with
          | Throws e => Throws e
          | Returns bs => Returns (b :: bs)
          end
      end
  end.

(** [sortedBy] is a stable sort under [compareValues] of the selected keys,
    here [String.compareTo]; a stable sort is determined by its input, so an
    insertion sort that keeps equal keys in input order stands for it. *)
Fixpoint insertBy {A : Type} (key : A -> string) (x : A) (l : list A) : list A :=
  match l with
  | [] => [x]
  | y :: l' =>
      if compareTo (key x) (key y) <=? 0 then x :: y :: l'
      else y :: insertBy key x l'
  end.

Fixpoint sortedBy {A : Type} (key : A -> string) (l : list A) : list A :=
  match l with
  | [] => []
  | x :: l' => insertBy key x (sortedBy key l')
  end.

Definition parseCredentials (set : list string) : Result (list Credential) :=
  match mapR parseRecord set with
  | Throws e => Throws e
  | Returns pairs => Returns (map snd (sortedBy fst pairs))
  end.

(** Sortedness under the keys, with and without ties. *)
Definition le_key {A : Type} (key : A -> string) (x y : A) : Prop :=
  compareTo (key x) (key y) <= 0.
Definition lt_key {A : Type} (key : A -> string) (x y : A) : Prop :=
  compareTo (key x) (key y) < 0.

(** The fields of a record, whatever their number. *)
Definition fields (s : string) : list string := split DELIM s.

Definition isDigit (c : ascii) : bool :=
  let n := N_of_ascii c in ((48 <=? n) && (n <=? 57))%N.

(** Following the specification: an index is numeric when it is a non-empty
    run of digits, and a record is malformed when it has not three fields or
    its index is not numeric. *)
Definition spec_numeric (s : string) : bool :=
  negb (String.eqb s "") && all_chars isDigit s.

Definition spec_malformed (s : string) : Prop :=
  length (fields s) <> 3%nat \/ spec_numeric (hd "" (fields s)) = false.

(** Eleven credentials [c0 .. c10]. *)
Definition eleven : list Credential :=
  map (fun i => mkCredential ("c" +:+ Int_toString i) "k") (seq 0 11).

(** ** SharedPreferences *)

Inductive PrefValue : Type :=
| PString (s : string)
| PStringSet (set : list string).

Definition PREF_USERNAME : string := "username".
Definition PREF_TOKEN : string := "token".
Definition PREF_CREDENTIALS : string := "credentials".
Definition PREF_LOCAL_CREDENTIAL_ID : string := "local_credential_id".
Definition TAG : string := "AuthRepository".

(** [SharedPreferences.getString(key, null)]: [null] for a missing key, and a
    [ClassCastException] for a value that is not a [String]. *)
Definition getString (prefs : gmap string PrefValue) (key : string)
  : Result (option string) :=
  match prefs !! key with
  | None => Returns None
  | Some (PString s) => Returns (Some s)
  | Some (PStringSet _) => Throws ClassCastException
  end.

(** [SharedPreferences.getStringSet(key, defValues)]. *)
Definition getStringSet (prefs : gmap string PrefValue) (key : string)
    (defValues : list string) : Result (list string) :=
  match prefs !! key with
  | None => Returns defValues
  | Some (PStringSet set) => Returns set
  | Some (PString _) => Throws ClassCastException
  end.

(** The calls made on a [SharedPreferences.Editor]. *)
Inductive EditorOp : Type :=
| putString (key value : string)
| putStringSet (key : string) (value : list string)
| remove (key : string).

Definition applyOp (prefs : gmap string PrefValue) (op : EditorOp)
  : gmap string PrefValue :=
  match op with
  | putString key value => <[key := PString value]> prefs
  | putStringSet key value => <[key := PStringSet value]> prefs
  | remove key => delete key prefs
  end.

(** ** Sign-in state, collaborators, repository *)

Inductive SignInState : Type :=
| SignedOut
| SigningIn (username : string)
| SignedIn (username token : string)
| SignInError (error : string).

(** A registered listener is known by the number of the [LiveData] it feeds. *)
Definition Listener : Type := nat.

(** Objects of the FIDO2 SDK that the repository only hands on stand for
    themselves as byte strings. *)
Definition Options : Type := string.
Definition Fido2PendingIntent : Type := string.

Record AuthenticatorResponse : Type :=
  mkResponse { keyHandle : string; rawResponse : string }.

(** The [Intent] handed back by the platform ceremony: the byte array under
    [Fido.FIDO2_KEY_RESPONSE_EXTRA], if any. *)
Record Intent : Type := mkIntent { FIDO2_KEY_RESPONSE_EXTRA : option string }.

(** [Fido2ApiClient]: the methods with the returned task awaited. *)
Record Fido2ApiClient : Type := mkClient {
  getRegisterIntent : Options -> Result Fido2PendingIntent;
  getSignIntent : Options -> Result Fido2PendingIntent
}.

(** [AuthApi], not part of these sources: each call answers or throws. *)
Record AuthApi : Type := mkApi {
  api_username : string -> Result string;
  api_password : string -> string -> Result (list string);
  api_registerRequest : string -> string -> Result (Options * string);
  api_registerResponse :
    string -> string -> AuthenticatorResponse -> Result (list Credential);
  api_signinRequest : string -> option string -> Result (Options * string);
  api_signinResponse :
    string -> string -> AuthenticatorResponse -> Result (list Credential * string)
}.

(** What a block works with besides the repository itself: the server, the
    SDK's deserialisers and the [toBase64] helper of the application. *)
Record Collaborators : Type := mkCollaborators {
  api : AuthApi;
  deserializeAttestation : string -> Result AuthenticatorResponse;
  deserializeAssertion : option string -> Result AuthenticatorResponse;
  toBase64 : string -> string
}.

Inductive ApiCall : Type :=
| CallUsername (username : string)
| CallPassword (username password : string)
| CallRegisterRequest (token username : string)
| CallRegisterResponse (token challenge : string) (response : AuthenticatorResponse)
| CallSigninRequest (username : string) (credentialId : option string)
| CallSigninResponse (username challenge : string) (response : AuthenticatorResponse).

Inductive Event : Type :=
| Notified (listener : Listener) (state : SignInState)
| Logged (tag message : string) (e : Throwable)
| Posted (value : bool)
| Edited (commit : bool) (prefs : gmap string PrefValue)
| Called (call : ApiCall)
| Delivered (intent : Fido2PendingIntent).

Record Repo : Type := mkRepo {
  prefs : gmap string PrefValue;
  fido2ApiClient : option Fido2ApiClient;
  signInStateListeners : list Listener;
  lastKnownChallenge : option string
}.

(** ** Blocks: state, throwables, trace *)

Definition M (A : Type) : Type := Repo -> Result A * Repo * list Event.

Definition ret {A : Type} (a : A) : M A := fun r => (Returns a, r, []).

Definition throw {A : Type} (e : Throwable) : M A := fun r => (Throws e, r, []).

Definition bind {A B : Type} (m : M A) (k : A -> M B) : M B :=
  fun r =>
    match m r with
    | (Returns a, r1, evs1) =>
        match k a r1 with
        | (res, r2, evs2) => (res, r2, evs1 ++ evs2)
        end
    | (Throws e, r1, evs1) => (Throws e, r1, evs1)
    end.

Notation "'let!' x ':=' m 'in' k" := (bind m (fun x => k))
  (at level 10, x name, m at level 100, k at level 200, only parsing).
Notation "'do!' m 'in' k" := (bind m (fun _ => k))
  (at level 10, m at level 100, k at level 200, only parsing).

Definition lift {A : Type} (res : Result A) : M A := fun r => (res, r, []).

Definition emit (ev : Event) : M unit := fun r => (Returns tt, r, [ev]).

(** [try { body } catch (e: T) { handler }]: [handler e] is [None] when [e]
    is not a [T]. *)
Definition tryCatch {A : Type} (body : M A) (handler : Throwable -> option (M A))
  : M A :=
  fun r =>
    match body r with
    | (Returns a, r1, evs1) => (Returns a, r1, evs1)
    | (Throws e, r1, evs1) =>
        match handler e with
        | None => (Throws e, r1, evs1)
        | Some h =>
            match h r1 with
            | (res, r2, evs2) => (res, r2, evs1 ++ evs2)
            end
        end
    end.

(** [try { body } finally { final }]. *)
Definition tryFinally {A : Type} (body : M A) (final : M unit) : M A :=
  fun r =>
    match body r with
    | (res, r1, evs1) =>
        match final r1 with
        | (Returns _, r2, evs2) => (res, r2, evs1 ++ evs2)
        | (Throws e, r2, evs2) => (Throws e, r2, evs1 ++ evs2)
        end
    end.

(** The [!!] operator. *)
Definition notNull {A : Type} (a : option A) : M A :=
  match a with
  | Some a => ret a
  | None => throw NullPointerException
  end.

(** [List.get(index)]. *)
Definition get {A : Type} (l : list A) (index : nat) : M A :=
  match nth_error l index with
  | Some a => ret a
  | None => throw IndexOutOfBoundsException
  end.

Definition prefs_getString (key : string) : M (option string) :=
  fun r => (getString (prefs r) key, r, []).

(** [prefs.edit(commit) { ops }]: the calls are applied in order, then the
    editor is committed ([commit = true]) or applied. *)
Definition edit (commit : bool) (ops : list EditorOp) : M unit :=
  fun r =>
    let prefs' := fold_left applyOp ops (prefs r) in
    (Returns tt,
     mkRepo prefs' (fido2ApiClient r) (signInStateListeners r) (lastKnownChallenge r),
     [Edited commit prefs']).

Definition set_lastKnownChallenge (challenge : string) : M unit :=
  fun r =>
    (Returns tt,
     mkRepo (prefs r) (fido2ApiClient r) (signInStateListeners r) (Some challenge),
     []).

Definition postValue (value : bool) : M unit := emit (Posted value).

Definition Log_e (tag message : string) (e : Throwable) : M unit :=
  emit (Logged tag message e).

(** A call of the server: the call is traced, then it answers or throws. *)
Definition call {A : Type} (c : ApiCall) (answer : Result A) : M A :=
  do! emit (Called c) in lift answer.

(** ** The repository's operations *)

(** [val listeners = signInStateListeners.toList(); for (listener in listeners)
    listener(state)]: a listener posts the state to its [LiveData]. *)
Definition invokeSignInStateListeners (state : SignInState) : M unit :=
  fun r =>
    let listeners := signInStateListeners r in
    (Returns tt, r, map (fun listener => Notified listener state) listeners).

(** The [when] of [getSignInState]. *)
Definition whenSignInState (username token : option string) : SignInState :=
  match username with
  | None => SignedOut
  | Some name =>
      if isNullOrBlank username then SignedOut
      else if isNullOrBlank token then SigningIn name
           else match token with
                | None => SigningIn name
                | Some tok => SignedIn name tok
                end
  end.

(** The value a [LiveData] made by [getSignInState] starts with. *)
Definition getSignInState (p : gmap string PrefValue) : Result SignInState :=
  match getString p PREF_USERNAME with
  | Throws e => Throws e
  | Returns username =>
      match getString p PREF_TOKEN with
      | Throws e => Throws e
      | Returns token => Returns (whenSignInState username token)
      end
  end.

(** [onActive]: [signInStateListeners.add(listener)]. *)
Definition onActive (listener : Listener) : M unit :=
  fun r =>
    (Returns tt,
     mkRepo (prefs r) (fido2ApiClient r) (signInStateListeners r ++ [listener])
       (lastKnownChallenge r),
     []).

(** [MutableList.remove(element)] takes out the first occurrence. *)
Fixpoint remove_first (listener : Listener) (l : list Listener) : list Listener :=
  match l with
  | [] => []
  | x :: l' => if Nat.eqb x listener then l' else x :: remove_first listener l'
  end.

(** [onInactive]: [signInStateListeners.remove(listener)]. *)
Definition onInactive (listener : Listener) : M unit :=
  fun r =>
    (Returns tt,
     mkRepo (prefs r) (fido2ApiClient r)
       (remove_first listener (signInStateListeners r)) (lastKnownChallenge r),
     []).

Definition setFido2APiClient (client : option Fido2ApiClient) : M unit :=
  fun r =>
    (Returns tt,
     mkRepo (prefs r) client (signInStateListeners r) (lastKnownChallenge r),
     []).

(** The value mapped by [getCredentials] from the stored set. *)
Definition getCredentials (p : gmap string PrefValue) : Result (list Credential) :=
  match getStringSet p PREF_CREDENTIALS [] with
  | Throws e => Throws e
  | Returns set => parseCredentials set
  end.

Definition username (c : Collaborators) (username : string) : M unit :=
  do! postValue true in
  tryFinally
    (let! result := call (CallUsername username) (api_username (api c) username) in
     do! edit true [putString PREF_USERNAME result] in
     invokeSignInStateListeners (SigningIn username))
    (postValue false).

(** The message of [SignInError] when the [ApiException] has none. *)
Definition DEFAULT_ERROR : string := "사용자 로그인에 실패했습니다.".

Definition password (c : Collaborators) (password : string) : M unit :=
  do! postValue true in
  let! stored := prefs_getString PREF_USERNAME in
  let! username := notNull stored in
  tryFinally
    (tryCatch
       (let! returnData := call (CallPassword username password)
                             (api_password (api c) username password) in
        let! token := get returnData 0 in
        let! username2 := get returnData 1 in
        do! edit true [putString PREF_TOKEN token] in
        do! edit true [putString PREF_USERNAME username2] in
        invokeSignInStateListeners (SignedIn username token))
       (fun e =>
          match e with
          | ApiException message =>
              Some
                (do! Log_e TAG "로그인 자격 증명이 잘못 되었습니다." e in
                 do! edit true
                       [remove PREF_USERNAME; remove PREF_TOKEN;
                        remove PREF_CREDENTIALS] in
                 invokeSignInStateListeners
                   (SignInError (default DEFAULT_ERROR message)))
          | _ => None
          end))
    (postValue false).

Definition clearToken : M unit :=
  let! stored := prefs_getString PREF_USERNAME in
  let! username := notNull stored in
  do! edit true [remove PREF_TOKEN; remove PREF_CREDENTIALS] in
  invokeSignInStateListeners (SigningIn username).

Definition signOut : M unit :=
  do! edit true [remove PREF_USERNAME; remove PREF_TOKEN; remove PREF_CREDENTIALS] in
  invokeSignInStateListeners SignedOut.

(** [fido2ApiClient?.let { client -> body }]. *)
Definition withClient (body : Fido2ApiClient -> M unit) : M unit :=
  fun r =>
    match fido2ApiClient r with
    | None => (Returns tt, r, [])
    | Some client => body client r
    end.

(** [lastKnownChallenge!!]. *)
Definition get_lastKnownChallenge : M string :=
  fun r => notNull (lastKnownChallenge r) r.

Definition registerRequest (c : Collaborators) : M unit :=
  withClient (fun client =>
    do! postValue true in
    tryFinally
      (tryCatch
         (let! storedToken := prefs_getString PREF_TOKEN in
          let! token := notNull storedToken in
          let! storedName := prefs_getString PREF_USERNAME in
          let! username := notNull storedName in
          let! answer := call (CallRegisterRequest token username)
                           (api_registerRequest (api c) token username) in
          do! set_lastKnownChallenge (snd answer) in
          let! intent := lift (getRegisterIntent client (fst answer)) in
          emit (Delivered intent))
         (fun e =>
            if isException e
            then Some (Log_e TAG "registerRequest를 호출할 수 없습니다." e)
            else None))
      (postValue false)).

Definition registerResponse (c : Collaborators) (data : Intent) : M unit :=
  do! postValue true in
  tryFinally
    (tryCatch
       (let! storedToken := prefs_getString PREF_TOKEN in
        let! token := notNull storedToken in
        let! challenge := get_lastKnownChallenge in
        let! bytes := notNull (FIDO2_KEY_RESPONSE_EXTRA data) in
        let! response := lift (deserializeAttestation c bytes) in
        let credentialId := toBase64 c (keyHandle response) in
        let! credentials := call (CallRegisterResponse token challenge response)
                              (api_registerResponse (api c) token challenge response) in
        edit false
          [putStringSet PREF_CREDENTIALS (toStringSet credentials);
           putString PREF_LOCAL_CREDENTIAL_ID credentialId])
       (fun e =>
          match e with
          | ApiException _ =>
              Some (Log_e TAG "registerResponse를 호출할 수 없습니다." e)
          | _ => None
          end))
    (postValue false).

Definition signinRequest (c : Collaborators) : M unit :=
  withClient (fun client =>
    do! postValue true in
    tryFinally
      (let! storedName := prefs_getString PREF_USERNAME in
       let! username := notNull storedName in
       let! credentialId := prefs_getString PREF_LOCAL_CREDENTIAL_ID in
       let! answer := call (CallSigninRequest username credentialId)
                        (api_signinRequest (api c) username credentialId) in
       do! set_lastKnownChallenge (snd answer) in
       let! intent := lift (getSignIntent client (fst answer)) in
       emit (Delivered intent))
      (postValue false)).

Definition signinResponse (c : Collaborators) (data : Intent) : M unit :=
  do! postValue true in
  tryFinally
    (tryCatch
       (let! storedName := prefs_getString PREF_USERNAME in
        let! username := notNull storedName in
        let! challenge := get_lastKnownChallenge in
        let! response := lift (deserializeAssertion c (FIDO2_KEY_RESPONSE_EXTRA data)) in
        let credentialId := toBase64 c (keyHandle response) in
        let! answer := call (CallSigninResponse username challenge response)
                         (api_signinResponse (api c) username challenge response) in
        do! edit true
              [putString PREF_TOKEN (snd answer);
               putStringSet PREF_CREDENTIALS (toStringSet (fst answer));
               putString PREF_LOCAL_CREDENTIAL_ID credentialId] in
        invokeSignInStateListeners (SignedIn username (snd answer)))
       (fun e =>
          match e with
          | ApiException _ =>
              Some (Log_e TAG "registerResponse를 호출할 수 없습니다." e)
          | _ => None
          end))
    (postValue false).

(** ** Runs *)

Inductive Operation : Type :=
| OpUsername (username : string)
| OpPassword (password : string)
| OpClearToken
| OpSignOut
| OpRegisterRequest
| OpRegisterResponse (data : Intent)
| OpSigninRequest
| OpSigninResponse (data : Intent)
| OpSetClient (client : option Fido2ApiClient)
| OpOnActive (listener : Listener)
| OpOnInactive (listener : Listener).

Definition run (c : Collaborators) (op : Operation) : M unit :=
  match op with
  | OpUsername name => username c name
  | OpPassword pw => password c pw
  | OpClearToken => clearToken
  | OpSignOut => signOut
  | OpRegisterRequest => registerRequest c
  | OpRegisterResponse data => registerResponse c data
  | OpSigninRequest => signinRequest c
  | OpSigninResponse data => signinResponse c data
  | OpSetClient client => setFido2APiClient client
  | OpOnActive listener => onActive listener
  | OpOnInactive listener => onInactive listener
  end.

Definition result_of {A : Type} (x : Result A * Repo * list Event) : Result A :=
  fst (fst x).
Definition repo_of {A : Type} (x : Result A * Repo * list Event) : Repo :=
  snd (fst x).
Definition events_of {A : Type} (x : Result A * Repo * list Event) : list Event :=
  snd x.

(** A repository on an empty store, and the one found after the process died:
    only the preferences outlive it. *)
Definition initial : Repo := mkRepo ∅ None [] None.
Definition restart (r : Repo) : Repo := mkRepo (prefs r) None [] None.

(** The repositories reached when the blocks run one after another, none
    overlapping another, the process restarting at any time. *)
Inductive reachable : Repo -> Prop :=
| reachable_initial : reachable initial
| reachable_run c op r : reachable r -> reachable (repo_of (run c op r))
| reachable_restart r : reachable r -> reachable (restart r).

(** Another block of the pool run to its end; what it throws goes to its own
    thread. *)
Definition quietly (other : M unit) : M unit :=
  fun r =>
    match other r with
    | (_, r', evs) => (Returns tt, r', evs)
    end.

(** [signinResponse] on a pool of threads: the block [meanwhile] of another
    thread runs while this one waits for the server, between the call of line
    377 and the edit of line 378. *)
Definition signinResponse_meanwhile (c : Collaborators) (data : Intent)
    (meanwhile : M unit) : M unit :=
  do! postValue true in
  tryFinally
    (tryCatch
       (let! storedName := prefs_getString PREF_USERNAME in
        let! username := notNull storedName in
        let! challenge := get_lastKnownChallenge in
        let! response := lift (deserializeAssertion c (FIDO2_KEY_RESPONSE_EXTRA data)) in
        let credentialId := toBase64 c (keyHandle response) in
        let! answer := call (CallSigninResponse username challenge response)
                         (api_signinResponse (api c) username challenge response) in
        do! quietly meanwhile in
        do! edit true
              [putString PREF_TOKEN (snd answer);
               putStringSet PREF_CREDENTIALS (toStringSet (fst answer));
               putString PREF_LOCAL_CREDENTIAL_ID credentialId] in
        invokeSignInStateListeners (SignedIn username (snd answer)))
       (fun e =>
          match e with
          | ApiException _ =>
              Some (Log_e TAG "registerResponse를 호출할 수 없습니다." e)
          | _ => None
          end))
    (postValue false).

(** What the listeners were told, what was logged, what the store became. *)
Definition notifications (evs : list Event) : list (Listener * SignInState) :=
  flat_map (fun ev => match ev with Notified l s => [(l, s)] | _ => [] end) evs.

Definition logged (evs : list Event) : list Throwable :=
  flat_map (fun ev => match ev with Logged _ _ e => [e] | _ => [] end) evs.

Definition stores (evs : list Event) : list (gmap string PrefValue) :=
  flat_map (fun ev => match ev with Edited _ p => [p] | _ => [] end) evs.

Definition calls (evs : list Event) : list ApiCall :=
  flat_map (fun ev => match ev with Called c => [c] | _ => [] end) evs.

Definition broadcast (listeners : list Listener) (state : SignInState)
  : list (Listener * SignInState) :=
  map (fun listener => (listener, state)) listeners.

(** What one listener was told. *)
Definition received (listener : Listener) (evs : list Event) : list SignInState :=
  map snd (List.filter (fun told => Nat.eqb (fst told) listener) (notifications evs)).

(** ** Properties of stores and credentials used in the statements *)

Definition present (p : gmap string PrefValue) (key : string) : Prop :=
  is_Some (p !! key).

Definition token_needs_username (p : gmap string PrefValue) : Prop :=
  present p PREF_TOKEN -> present p PREF_USERNAME.

Definition delimiter_free (c : Credential) : Prop :=
  contains DELIM (id c) = false /\ contains DELIM (publicKey c) = false.

(** Following the specification's table of transitions: the state an
    operation moves to when it completes, on the answers of the collaborators;
    [None] where the table has no change of state. *)
Definition spec_transition (c : Collaborators) (op : Operation) (r : Repo)
  : option SignInState :=
  match op with
  | OpUsername name =>
      match api_username (api c) name with
      | Returns _ => Some (SigningIn name)
      | Throws _ => None
      end
  | OpPassword pw =>
      match getString (prefs r) PREF_USERNAME with
      | Returns (Some name) =>
          match api_password (api c) name pw with
          | Returns (token :: _ :: _) => Some (SignedIn name token)
          | Throws (ApiException message) =>
              Some (SignInError (default DEFAULT_ERROR message))
          | _ => None
          end
      | _ => None
      end
  | OpClearToken =>
      match getString (prefs r) PREF_USERNAME with
      | Returns (Some name) => Some (SigningIn name)
      | _ => None
      end
  | OpSignOut => Some SignedOut
  | OpSigninResponse data =>
      match getString (prefs r) PREF_USERNAME, lastKnownChallenge r with
      | Returns (Some name), Some challenge =>
          match deserializeAssertion c (FIDO2_KEY_RESPONSE_EXTRA data) with
          | Returns response =>
              match api_signinResponse (api c) name challenge response with
              | Returns answer => Some (SignedIn name (snd answer))
              | Throws _ => None
              end
          | Throws _ => None
          end
      | _, _ => None
      end
  | _ => None
  end.

(** The four operations of a registration or sign-in ceremony. *)
Definition ceremony_op (op : Operation) : bool :=
  match op with
  | OpRegisterRequest | OpRegisterResponse _ | OpSigninRequest | OpSigninResponse _ =>
      true
  | _ => false
  end.

(** A request is attempted when a client is set, a response always; the
    operation completed when it delivered its intent or wrote its answer. *)
Definition attempted (op : Operation) (r : Repo) : bool :=
  match op with
  | OpRegisterRequest | OpSigninRequest =>
      match fido2ApiClient r with
      | Some _ => true
      | None => false
      end
  | _ => true
  end.

Definition completed (evs : list Event) : bool :=
  existsb (fun ev => match ev with
                     | Delivered _ | Edited _ _ => true
                     | _ => false
                     end) evs.

(** The steps of a ceremony operation read off the stored values and the
    answers of the SDK and the server alone. *)
Definition and_then {A B : Type} (x : Result A) (k : A -> Result B) : Result B :=
  match x with
  | Returns a => k a
  | Throws e => Throws e
  end.

(** A stored string that must be there. *)
Definition stored (p : gmap string PrefValue) (key : string) : Result string :=
  and_then (getString p key)
    (fun v => match v with
              | Some s => Returns s
              | None => Throws NullPointerException
              end).

Definition must {A : Type} (v : option A) : Result A :=
  match v with
  | Some a => Returns a
  | None => Throws NullPointerException
  end.

(** What the stored values, the SDK and the server answer to the steps of a
    ceremony operation, in the order of the steps, before anything is written
    or delivered: [Throws e] when a step fails, with the throwable of the
    first one that does. A request without a client has no step. *)
Definition ceremony_answer (c : Collaborators) (op : Operation) (r : Repo)
  : Result unit :=
  match op with
  | OpRegisterRequest =>
      match fido2ApiClient r with
      | None => Returns tt
      | Some client =>
          and_then (stored (prefs r) PREF_TOKEN) (fun token =>
          and_then (stored (prefs r) PREF_USERNAME) (fun name =>
          and_then (api_registerRequest (api c) token name) (fun answer =>
          and_then (getRegisterIntent client (fst answer)) (fun _ =>
          Returns tt))))
      end
  | OpRegisterResponse data =>
      and_then (stored (prefs r) PREF_TOKEN) (fun token =>
      and_then (must (lastKnownChallenge r)) (fun challenge =>
      and_then (must (FIDO2_KEY_RESPONSE_EXTRA data)) (fun bytes =>
      and_then (deserializeAttestation c bytes) (fun response =>
      and_then (api_registerResponse (api c) token challenge response) (fun _ =>
      Returns tt)))))
  | OpSigninRequest =>
      match fido2ApiClient r with
      | None => Returns tt
      | Some client =>
          and_then (stored (prefs r) PREF_USERNAME) (fun name =>
          and_then (getString (prefs r) PREF_LOCAL_CREDENTIAL_ID) (fun credentialId =>
          and_then (api_signinRequest (api c) name credentialId) (fun answer =>
          and_then (getSignIntent client (fst answer)) (fun _ =>
          Returns tt))))
      end
  | OpSigninResponse data =>
      and_then (stored (prefs r) PREF_USERNAME) (fun name =>
      and_then (must (lastKnownChallenge r)) (fun challenge =>
      and_then (deserializeAssertion c (FIDO2_KEY_RESPONSE_EXTRA data)) (fun response =>
      and_then (api_signinResponse (api c) name challenge response) (fun _ =>
      Returns tt))))
  | _ => Returns tt
  end.

(** ** Concrete collaborators for the examples *)

Definition answer_with (token : string) : AuthApi :=
  mkApi (fun name => Returns name)
        (fun name _ => Returns [token; "@" +:+ name])
        (fun _ _ => Returns ("options", "challenge"))
        (fun _ _ _ => Returns [mkCredential "id0" "key0"])
        (fun _ _ => Returns ("options", "challenge"))
        (fun _ _ _ => Returns ([mkCredential "id0" "key0"], token)).

Definition reject_with (e : Throwable) : AuthApi :=
  mkApi (fun _ => Throws e) (fun _ _ => Throws e) (fun _ _ => Throws e)
        (fun _ _ _ => Throws e) (fun _ _ => Throws e) (fun _ _ _ => Throws e).

Definition with_api (a : AuthApi) : Collaborators :=
  mkCollaborators a
    (fun bytes => Returns (mkResponse bytes bytes))
    (fun bytes =>
       match bytes with
       | Some b => Returns (mkResponse b b)
       | None => Throws NullPointerException
       end)
    (fun bytes => bytes).

Definition a_client : Fido2ApiClient :=
  mkClient (fun options => Returns options) (fun options => Returns options).

(** A repository in [SigningIn] and one in [SignedIn], each with a client, a
    challenge, a local credential id and the listeners [1] and [2]. *)
Definition signing_in_repo : Repo :=
  mkRepo (<[PREF_LOCAL_CREDENTIAL_ID := PString "id0"]>
            {[PREF_USERNAME := PString "bob"]})
         (Some a_client) [1%nat; 2%nat] (Some "challenge").

Definition signed_in_repo : Repo :=
  mkRepo (<[PREF_TOKEN := PString "t0"]> (prefs signing_in_repo))
         (Some a_client) [1%nat; 2%nat] (Some "challenge").

Definition wrong_password : Collaborators :=
  with_api (reject_with (ApiException (Some "invalid credentials"))).

(** From the empty store: a client is set, the name [bob] submitted, and a
    sign-in request made. *)
Definition signin_ready_repo : Repo :=
  let c := with_api (answer_with "t0") in
  repo_of (run c OpSigninRequest
             (repo_of (run c (OpUsername "bob")
                         (repo_of (run c (OpSetClient (Some a_client)) initial))))).

(** ** Further views of a trace and of a store *)

Definition posted (evs : list Event) : list bool :=
  flat_map (fun ev => match ev with Posted b => [b] | _ => [] end) evs.

Definition delivered (evs : list Event) : list Fido2PendingIntent :=
  flat_map (fun ev => match ev with Delivered i => [i] | _ => [] end) evs.

Definition edits (evs : list Event) : list (bool * gmap string PrefValue) :=
  flat_map (fun ev => match ev with Edited b p => [(b, p)] | _ => [] end) evs.

(** What the decoding makes of one encoded credential: the first two fields
    of its id and public key joined by the delimiter. *)
Definition cut (c : Credential) : Credential :=
  match split DELIM (id c +:+ String DELIM (publicKey c)) with
  | a :: b :: _ => mkCredential a b
  | _ => c
  end.



(** The two operations that ask the server for a challenge. *)
Definition request_op (op : Operation) : bool :=
  match op with
  | OpRegisterRequest | OpSigninRequest => true
  | _ => false
  end.

Definition registration_op (op : Operation) : bool :=
  match op with
  | OpOnActive _ | OpOnInactive _ => true
  | _ => false
  end.

(** A repository signed in, with a client, that no request has been made on. *)
Definition no_challenge_repo : Repo :=
  mkRepo (prefs signed_in_repo) (Some a_client) [1%nat; 2%nat] None.

Definition signed_out_repo : Repo := mkRepo ∅ None [] None.

(** A repository in [SigningIn] with a client, no token and no challenge. *)
Definition signing_in_fresh_repo : Repo :=
  mkRepo (prefs signing_in_repo) (Some a_client) [1%nat; 2%nat] None.

(** ** BoardWriteForm.jsx: [writeBoard] *)

Module BoardWriteForm.

(** [props.location.query], when defined. *)
Record Query : Type := mkQuery { q_title : string; q_content : string; _id : string }.

(** What [writeBoard] reads: the values of the two controls, the names of
    the files chosen, the query, [sessionStorage.getItem('login_id')] and
    [process.env.REACT_APP_URL]. *)
Record Page : Type := mkPage {
  boardTitle : string;
  boardContent : string;
  files : list string;
  query : option Query;
  login_id : option string;
  REACT_APP_URL : option string
}.

Inductive FormValue : Type :=
| Text (s : string)
| File (name : string).

Inductive Control : Type := TitleControl | ContentControl.

Inductive Effect : Type :=
| Alert (message : string)
| Focus (control : Control)
| ConsoleLog
| Post (url : string) (formData : list (string * FormValue)).

Inductive Completion : Type :=
| Returned
| TypeError.

(** A JavaScript string is held as its UTF-8 bytes, as the literals of this
    file are; the regular expression reads its UTF-16 code units. *)

(** The code units of one code point. *)
Definition units_of (cp : N) : list N :=
  (if cp <? 65536 then [cp]
   else [55296 + (cp - 65536) / 1024; 56320 + (cp - 65536) mod 1024])%N.

(** A byte that starts a character: the code units it is already worth, the
    number of bytes still to come, and the bits it brings. A byte that cannot
    start one is worth U+FFFD. *)
Definition lead (n : N) : list N * nat * N :=
  (if n <? 128 then ([n], 0%nat, 0)
   else if n <? 192 then ([65533], 0%nat, 0)
   else if n <? 224 then ([], 1%nat, n - 192)
   else if n <? 240 then ([], 2%nat, n - 224)
   else if n <? 248 then ([], 3%nat, n - 240)
   else ([65533], 0%nat, 0))%N.

Fixpoint utf16_from (need : nat) (acc : N) (s : string) : list N :=
  match s with
  | EmptyString =>
      match need with
      | O => []
      | S _ => [65533%N]
      end
  | String b s' =>
      let n := N_of_ascii b in
      match need with
      | S k =>
          if ((128 <=? n) && (n <? 192))%N
          then match k with
               | O => units_of (acc * 64 + (n - 128)) ++ utf16_from 0 0 s'
               | S _ => utf16_from k (acc * 64 + (n - 128)) s'
               end
          else match lead n with
               | (out, need', acc') => 65533%N :: out ++ utf16_from need' acc' s'
               end
      | O =>
          match lead n with
          | (out, need', acc') => out ++ utf16_from need' acc' s'
          end
      end
  end.

(** The UTF-16 code units of a string. *)
Definition utf16 (s : string) : list N := utf16_from 0 0 s.

(** The class [\s]: the white space and line terminators of the language. *)
Definition isSpace (u : N) : bool :=
  ((9 <=? u) && (u <=? 13) || (u =? 32) || (u =? 160) || (u =? 5760)
   || (8192 <=? u) && (u <=? 8202) || (u =? 8232) || (u =? 8233)
   || (u =? 8239) || (u =? 8287) || (u =? 12288) || (u =? 65279))%N.

Definition extensions : list string :=
  ["jpg"; "gif"; "png"; "JPG"; "GIF"; "PNG"].

Fixpoint starts (p us : list N) : bool :=
  match p, us with
  | [], _ => true
  | a :: p', b :: us' => N.eqb a b && starts p' us'
  | _ :: _, [] => false
  end.

(** [\.(jpg|gif|png|JPG|GIF|PNG)] here, as the lookahead asks and as
    [\.\2] then reads. *)
Definition at_extension (us : list N) : bool :=
  existsb (fun ext => starts (utf16 (String "." ext)) us) extensions.

(** [/([^\s]+(?=\.(jpg|gif|png|JPG|GIF|PNG))\.\2)/] matches somewhere: a
    run of non-space code units ends where an extension starts. [before]
    tells whether the code unit before [us] is a non-space one. *)
Fixpoint imgExp_from (before : bool) (us : list N) : bool :=
  (before && at_extension us)
  || match us with
     | [] => false
     | u :: us' => imgExp_from (negb (isSpace u)) us'
     end.

(** [name.match(imgExp) !== null]. *)
Definition imgExp (name : string) : bool := imgExp_from false (utf16 name).

(** String concatenation with a value that may be [undefined] or [null]. *)
Definition or_word (word : string) (s : option string) : string :=
  match s with
  | Some s => s
  | None => word
  end.

Definition TITLE_ALERT : string := "글 제목을 입력 해주세요.".
Definition CONTENT_ALERT : string := "글 내용을 입력 해주세요.".
Definition IMAGE_ALERT : string := "jpg, gif, png 형식의 이미지 파일만 첨부 가능합니다.".

Definition writeBoard (page : Page) : list Effect * Completion :=
  let formData :=
    [("headers", Text "[object Object]");
     ("_id", Text (or_word "null" (login_id page)));
     ("title", Text (boardTitle page));
     ("content", Text (boardContent page))] in
  let '(formData, logs) :=
    match files page with
    | [] => (formData, [])
    | file :: _ =>
        (formData ++ [("imgFile", File file); ("imgPath", Text file)], [ConsoleLog])
    end in
  let post :=
    match query page with
    | Some q =>
        Post (or_word "undefined" (REACT_APP_URL page) +:+ "/board/update")
          (formData ++ [("boardId", Text (_id q))])
    | None =>
        Post (or_word "undefined" (REACT_APP_URL page) +:+ "/board/write") formData
    end in
  if String.eqb (boardTitle page) ""
  then (logs ++ [Alert TITLE_ALERT], TypeError)
  else if String.eqb (boardContent page) ""
  then (logs ++ [Alert CONTENT_ALERT; Focus ContentControl; post], Returned)
  else
    match files page with
    | file :: _ =>
        if negb (imgExp file) && negb (String.eqb file "")
        then (logs ++ [Alert IMAGE_ALERT], Returned)
        else (logs ++ [post], Returned)
    | [] => (logs ++ [post], Returned)
    end.

Definition posts (effects : list Effect) : list (string * list (string * FormValue)) :=
  flat_map (fun e => match e with Post url d => [(url, d)] | _ => [] end) effects.

Definition alerts (effects : list Effect) : list string :=
  flat_map (fun e => match e with Alert m => [m] | _ => [] end) effects.

(** The file name is refused by the test of line 50. *)
Definition refused (page : Page) : bool :=
  match files page with
  | file :: _ => negb (imgExp file) && negb (String.eqb file "")
  | [] => false
  end.


Definition korean_page : Page :=
  mkPage "title" "text" ["광고.jpg"] None (Some "alice") (Some "http://host").

End BoardWriteForm.

(** * Theorems *)

(** ** The order of [compareTo] *)

Lemma eqb_false_code (c1 c2 : ascii) :
  Ascii.eqb c1 c2 = false -> N_of_ascii c1 <> N_of_ascii c2.
Proof.
  intros H E. apply (f_equal ascii_of_N) in E.
  rewrite !ascii_N_embedding in E. subst c2.
  rewrite Ascii.eqb_refl in H. discriminate.
Qed.

Lemma compareTo_refl (a : string) : compareTo a a = 0.
Proof.
  induction a as [|c a IH]; simpl; [reflexivity|].
  now rewrite Ascii.eqb_refl.
Qed.

Lemma compareTo_opp (a b : string) : compareTo b a = - compareTo a b.
Proof.
  revert b. induction a as [|c a IH]; intros [|d b]; simpl; try lia.
  rewrite (Ascii.eqb_sym d c). destruct (Ascii.eqb c d); [apply IH | lia].
Qed.

Lemma compareTo_zero (a b : string) : compareTo a b = 0 -> a = b.
Proof.
  revert b. induction a as [|c a IH]; intros [|d b]; simpl; try lia.
  - reflexivity.
  - destruct (Ascii.eqb c d) eqn:E.
    + apply Ascii.eqb_eq in E. subst d. intros H. f_equal. now apply IH.
    + apply eqb_false_code in E. lia.
Qed.

Lemma compareTo_trans (a b c : string) :
  compareTo a b <= 0 -> compareTo b c <= 0 -> compareTo a c <= 0.
Proof.
  revert b c. induction a as [|x a IH]; intros [|y b] [|z c]; simpl; try lia.
  destruct (Ascii.eqb x y) eqn:Exy; destruct (Ascii.eqb y z) eqn:Eyz.
  - apply Ascii.eqb_eq in Exy. apply Ascii.eqb_eq in Eyz. subst.
    rewrite Ascii.eqb_refl. apply IH.
  - apply Ascii.eqb_eq in Exy. subst. rewrite Eyz. lia.
  - apply Ascii.eqb_eq in Eyz. subst. rewrite Exy. lia.
  - apply eqb_false_code in Exy. apply eqb_false_code in Eyz.
    destruct (Ascii.eqb x z) eqn:Exz.
    + apply Ascii.eqb_eq in Exz. subst. lia.
    + lia.
Qed.

(** ** Sorting *)

Section SortedBy.
Context {A : Type} (key : A -> string).

Lemma insertBy_perm (x : A) (l : list A) :
  Permutation (insertBy key x l) (x :: l).
Proof.
  induction l as [|y l IH]; simpl; [reflexivity|].
  destruct (compareTo (key x) (key y) <=? 0); [reflexivity|].
  rewrite IH. apply perm_swap.
Qed.

Lemma sortedBy_perm (l : list A) : Permutation (sortedBy key l) l.
Proof.
  induction l as [|x l IH]; simpl; [reflexivity|].
  rewrite insertBy_perm. now apply perm_skip.
Qed.

Lemma insertBy_sorted (x : A) (l : list A) :
  StronglySorted (le_key key) l -> StronglySorted (le_key key) (insertBy key x l).
Proof.
  induction 1 as [|y l Hs IH Hy]; simpl.
  - repeat constructor.
  - destruct (Z.leb_spec (compareTo (key x) (key y)) 0) as [Hle|Hgt].
    + constructor; [now constructor|].
      constructor; [exact Hle|].
      eapply Forall_impl; [|exact Hy].
      intros z Hz. unfold le_key in *. eapply compareTo_trans; eassumption.
    + constructor; [exact IH|].
      eapply Permutation_Forall; [symmetry; apply insertBy_perm|].
      constructor; [|exact Hy].
      unfold le_key. rewrite compareTo_opp. lia.
Qed.

Lemma sortedBy_sorted (l : list A) : StronglySorted (le_key key) (sortedBy key l).
Proof.
  induction l as [|x l IH]; simpl; [constructor|].
  now apply insertBy_sorted.
Qed.

(** A list sorted without ties is the only sorted arrangement of its
    elements. *)
Lemma sorted_unique (l2 : list A) :
  StronglySorted (lt_key key) l2 ->
  forall l1, StronglySorted (le_key key) l1 -> Permutation l1 l2 -> l1 = l2.
Proof.
  induction 1 as [|b l2 Hs2 IH Hb]; intros l1 Hs1 Hp.
  - symmetry in Hp. now apply Permutation_nil in Hp.
  - destruct l1 as [|a l1].
    { now apply Permutation_nil in Hp. }
    inversion Hs1 as [|? ? Hs1' Ha]; subst.
    assert (a = b) as ->.
    { assert (Hin : In a (b :: l2)) by (eapply Permutation_in; [exact Hp|now left]).
      destruct Hin as [->|Hin]; [reflexivity|].
      rewrite Forall_forall in Hb. specialize (Hb _ Hin).
      assert (Hin' : In b (a :: l1))
        by (eapply Permutation_in; [symmetry; exact Hp|now left]).
      destruct Hin' as [->|Hin']; [reflexivity|].
      rewrite Forall_forall in Ha. specialize (Ha _ Hin').
      unfold lt_key, le_key in *. rewrite compareTo_opp in Ha. lia. }
    f_equal. apply IH; [exact Hs1'|].
    eapply Permutation_cons_inv; exact Hp.
Qed.

Lemma sortedBy_of_permutation (s l : list A) :
  StronglySorted (lt_key key) l -> Permutation s l -> sortedBy key s = l.
Proof.
  intros Hl Hp. apply sorted_unique; [exact Hl|apply sortedBy_sorted|].
  rewrite sortedBy_perm. exact Hp.
Qed.
End SortedBy.

(** ** Splitting and the records of [toStringSet] *)

Lemma split_free (d : ascii) (a : string) :
  contains d a = false -> split d a = [a].
Proof.
  induction a as [|c a IH]; simpl; [reflexivity|].
  intros H. apply orb_false_iff in H as [Hc Ha].
  rewrite Hc, (IH Ha). reflexivity.
Qed.

Lemma split_app (d : ascii) (a rest : string) :
  contains d a = false -> split d (a +:+ String d rest) = a :: split d rest.
Proof.
  induction a as [|c a IH]; simpl.
  - intros _. now rewrite Ascii.eqb_refl.
  - intros H. apply orb_false_iff in H as [Hc Ha].
    rewrite Hc, (IH Ha). reflexivity.
Qed.

Lemma string_of_uint_free (d : Decimal.uint) :
  contains DELIM (NilEmpty.string_of_uint d) = false.
Proof. induction d; simpl; auto. Qed.

Lemma Int_toString_inj (i j : nat) : Int_toString i = Int_toString j -> i = j.
Proof.
  unfold Int_toString. intros H.
  apply DecimalNat.Unsigned.to_uint_inj.
  apply (f_equal NilEmpty.uint_of_string) in H.
  rewrite !NilEmpty.usu in H. congruence.
Qed.

Lemma parseRecord_record_of (i : nat) (c : Credential) :
  delimiter_free c -> parseRecord (record_of i c) = Returns (Int_toString i, c).
Proof.
  intros [Hid Hpk]. unfold parseRecord, record_of.
  rewrite split_app by apply string_of_uint_free.
  rewrite split_app by exact Hid.
  rewrite split_free by exact Hpk.
  now destruct c.
Qed.

Lemma in_mapIndexed_from {A B : Type} (f : nat -> A -> B) (l : list A) :
  forall (i : nat) (b : B),
    In b (mapIndexed_from f i l) ->
    exists j a, b = f j a /\ (i <= j < i + length l)%nat /\ In a l.
Proof.
  induction l as [|a l IH]; simpl; intros i b H; [contradiction|].
  destruct H as [<-|H].
  - exists i, a. repeat split; auto; lia.
  - apply IH in H as (j & a' & -> & Hj & Hin).
    exists j, a'. repeat split; auto; lia.
Qed.

Lemma map_mapIndexed_from {A B C : Type} (g : B -> C) (f : nat -> A -> B)
    (l : list A) :
  forall i, map g (mapIndexed_from f i l) = mapIndexed_from (fun j a => g (f j a)) i l.
Proof. induction l as [|a l IH]; simpl; intros i; [|rewrite IH]; reflexivity. Qed.

Lemma mapIndexed_from_ext {A B : Type} (f g : nat -> A -> B) (l : list A) :
  forall i,
    (forall j a, In a l -> f j a = g j a) ->
    mapIndexed_from f i l = mapIndexed_from g i l.
Proof.
  induction l as [|a l IH]; simpl; intros i H; [reflexivity|].
  rewrite H by now left. f_equal. apply IH. intros j b Hb. apply H. now right.
Qed.

Lemma mapIndexed_from_snd {A : Type} (f : nat -> string) (l : list A) :
  forall i, map snd (mapIndexed_from (fun j a => (f j, a)) i l) = l.
Proof. induction l as [|a l IH]; simpl; intros i; [|rewrite IH]; reflexivity. Qed.

Lemma records_NoDup (x : list Credential) :
  Forall delimiter_free x ->
  forall i, NoDup (mapIndexed_from record_of i x).
Proof.
  induction 1 as [|c x Hc Hx IH]; simpl; intros i; constructor; [|apply IH].
  intros Hin. apply in_mapIndexed_from in Hin as (j & c' & E & Hj & Hc').
  rewrite Forall_forall in Hx.
  apply (f_equal parseRecord) in E.
  rewrite !parseRecord_record_of in E by auto.
  injection E as E _. apply Int_toString_inj in E. lia.
Qed.

Lemma toSet_NoDup (l : list string) : NoDup l -> toSet l = l.
Proof.
  induction 1 as [|s l Hs Hl IH]; simpl; [reflexivity|].
  rewrite IH. f_equal.
  clear IH Hl. induction l as [|t l IH]; simpl; [reflexivity|].
  destruct (String.eqb_spec s t) as [->|Hne]; simpl.
  - exfalso. apply Hs. now left.
  - f_equal. apply IH. intros Hin. apply Hs. now right.
Qed.

(** The set written by [toStringSet] holds one record per credential. *)
Lemma toStringSet_records (x : list Credential) :
  Forall delimiter_free x -> toStringSet x = mapIndexed record_of x.
Proof. intros H. apply toSet_NoDup, records_NoDup, H. Qed.

Lemma mapR_pointwise {A B : Type} (f : A -> Result B) (g : A -> B) (l : list A) :
  (forall a, In a l -> f a = Returns (g a)) -> mapR f l = Returns (map g l).
Proof.
  induction l as [|a l IH]; simpl; intros H; [reflexivity|].
  rewrite H by now left. rewrite IH; [reflexivity|].
  intros b Hb. apply H. now right.
Qed.

Lemma mapR_throws {A B : Type} (f : A -> Result B) (e : Throwable) (l : list A) :
  (forall a, In a l -> f a = Throws e \/ exists b, f a = Returns b) ->
  Exists (fun a => f a = Throws e) l -> mapR f l = Throws e.
Proof.
  induction l as [|a l IH]; simpl; intros H Hex; [inversion Hex|].
  destruct (H a (or_introl eq_refl)) as [E|[b E]]; rewrite E; [reflexivity|].
  inversion Hex as [? ? Ha|? ? Hl]; subst; [congruence|].
  rewrite IH; auto.
Qed.

Lemma mapR_length {A B : Type} (f : A -> Result B) (l : list A) (bs : list B) :
  mapR f l = Returns bs -> length bs = length l.
Proof.
  revert bs. induction l as [|a l IH]; simpl; intros bs H.
  - now injection H as <-.
  - destruct (f a); [|discriminate].
    destruct (mapR f l) eqn:E; [|discriminate].
    injection H as <-. simpl. f_equal. now apply IH.
Qed.

Lemma parseRecord_cases (s : string) :
  ((length (fields s) < 3)%nat /\ parseRecord s = Throws IndexOutOfBoundsException)
  \/ ((3 <= length (fields s))%nat /\ exists p, parseRecord s = Returns p).
Proof.
  unfold parseRecord, fields.
  destruct (split DELIM s) as [|a [|b [|c l]]]; simpl;
    try (left; split; [lia|reflexivity]).
  right. split; [lia|eauto].
Qed.

(** Indices below ten are written with one digit, and the digits are ordered
    as the numbers are. *)
Lemma one_digit_order (i j : nat) :
  (i < j < 10)%nat -> compareTo (Int_toString i) (Int_toString j) < 0.
Proof.
  intros H.
  do 10 (destruct i as [|i]; [do 10 (destruct j as [|j]; [first [lia|reflexivity]|]); lia|]).
  lia.
Qed.

Lemma indexed_sorted (x : list Credential) :
  forall i, (i + length x <= 10)%nat ->
    StronglySorted (lt_key fst)
      (mapIndexed_from (fun j c => (Int_toString j, c)) i x).
Proof.
  induction x as [|c x IH]; simpl; intros i Hi; constructor.
  - apply IH. lia.
  - apply Forall_forall. intros p Hp.
    apply in_mapIndexed_from in Hp as (j & c' & -> & Hj & _).
    unfold lt_key. simpl. apply one_digit_order. lia.
Qed.

(** ** The codec *)

(** C1 fails as stated: a public key holding the delimiter is cut at it, and
    from eleven credentials on the records come back in the order of their
    index strings, ["10"] before ["2"]. *)
Lemma roundtrip_counterexample :
  (let x := [mkCredential "a" "p;q"] in
   NoDup (map id x) /\ Forall (fun c => contains DELIM (id c) = false) x /\
   parseCredentials (toStringSet x) = Returns [mkCredential "a" "p"] /\
   parseCredentials (toStringSet x) <> Returns x)
  /\
  (NoDup (map id eleven) /\ Forall delimiter_free eleven /\
   (exists front back,
      parseCredentials (toStringSet eleven) =
        Returns (front ++ mkCredential "c10" "k" :: mkCredential "c2" "k" :: back)) /\
   parseCredentials (toStringSet eleven) <> Returns eleven).
Proof.
  split.
  - cbv zeta. split; [repeat constructor; simpl; tauto|].
    split; [repeat constructor|].
    split; [reflexivity|]. vm_compute. discriminate.
  - split.
    { vm_compute. repeat (constructor; [simpl; intuition discriminate|]). constructor. }
    split; [repeat constructor|].
    split.
    + exists [mkCredential "c0" "k"; mkCredential "c1" "k"].
      eexists. vm_compute. reflexivity.
    + vm_compute. discriminate.
Qed.

(** C1, amended: for a sequence of at most ten credentials whose ids and
    public keys are free of the delimiter, decoding the encoded set gives the
    sequence back in its order, whatever the order in which the set is
    iterated. Unique ids are not needed: the index makes the records
    distinct. *)
Theorem parseCredentials_toStringSet (x : list Credential) (set : list string) :
  (length x <= 10)%nat ->
  Forall delimiter_free x ->
  Permutation set (toStringSet x) ->
  parseCredentials set = Returns x.
Proof.
  intros Hlen Hfree Hperm.
  rewrite toStringSet_records in Hperm by exact Hfree.
  unfold mapIndexed in Hperm.
  set (g := fun s => match parseRecord s with
                     | Returns p => p
                     | Throws _ => (EmptyString, mkCredential "" "")
                     end).
  assert (Hg : forall j c, In c x -> g (record_of j c) = (Int_toString j, c)).
  { intros j c Hc. unfold g. rewrite parseRecord_record_of; [reflexivity|].
    rewrite Forall_forall in Hfree. now apply Hfree. }
  unfold parseCredentials.
  rewrite (mapR_pointwise parseRecord g).
  - f_equal.
    rewrite (sortedBy_of_permutation fst (map g set)
               (mapIndexed_from (fun j c => (Int_toString j, c)) 0 x)).
    + apply mapIndexed_from_snd.
    + apply indexed_sorted. simpl. lia.
    + rewrite (Permutation_map g Hperm), map_mapIndexed_from.
      erewrite mapIndexed_from_ext; [reflexivity|]. intros j c Hc. now apply Hg.
  - intros s Hs.
    apply (Permutation_in _ Hperm) in Hs.
    apply in_mapIndexed_from in Hs as (j & c & -> & _ & Hc).
    rewrite Forall_forall in Hfree.
    rewrite parseRecord_record_of by auto. now rewrite Hg.
Qed.

Lemma parseCredentials_toStringSet_witness :
  parseCredentials ["1;b;k2"; "0;a;k1"] =
    Returns [mkCredential "a" "k1"; mkCredential "b" "k2"].
Proof.
  apply (parseCredentials_toStringSet
           [mkCredential "a" "k1"; mkCredential "b" "k2"] ["1;b;k2"; "0;a;k1"]).
  - simpl. lia.
  - repeat constructor.
  - apply perm_swap.
Defined.

(** C8 fails as stated: a record whose index is no number, and a record of
    four fields, are both malformed, and both are decoded without an error. *)
Lemma malformed_record_counterexample :
  (spec_malformed "x;a;b" /\
   parseCredentials ["x;a;b"] = Returns [mkCredential "a" "b"])
  /\
  (spec_malformed "0;a;b;c" /\
   parseCredentials ["0;a;b;c"] = Returns [mkCredential "a" "b"]).
Proof.
  split; split; try reflexivity.
  - right. reflexivity.
  - left. vm_compute. discriminate.
Qed.

(** C8, amended: a set holding a record of fewer than three fields makes the
    decoding throw, and so the mapping of [getCredentials] over the stored
    set; when the decoding returns, every record had three fields or more and
    the list has one credential for each record, none dropped. Fields after
    the third are passed over: a set whose records have three fields or more
    and a numeric index decodes. *)
Theorem parseCredentials_short_record (set : list string) :
  (Exists (fun s => (length (fields s) < 3)%nat) set ->
   parseCredentials set = Throws IndexOutOfBoundsException /\
   forall p : gmap string PrefValue,
     p !! PREF_CREDENTIALS = Some (PStringSet set) ->
     getCredentials p = Throws IndexOutOfBoundsException)
  /\
  (forall l, parseCredentials set = Returns l ->
             length l = length set /\
             Forall (fun s => (3 <= length (fields s))%nat) set)
  /\
  (Forall (fun s => (3 <= length (fields s))%nat /\
                    spec_numeric (hd "" (fields s)) = true) set ->
   exists l, parseCredentials set = Returns l).
Proof.
  assert (Hthrow : Exists (fun s => (length (fields s) < 3)%nat) set ->
                   parseCredentials set = Throws IndexOutOfBoundsException).
  { intros Hex. unfold parseCredentials.
    rewrite (mapR_throws parseRecord IndexOutOfBoundsException); [reflexivity| |].
    - intros s _. destruct (parseRecord_cases s) as [[_ E]|[_ E]]; auto.
    - eapply Exists_impl; [|exact Hex]. intros s Hs. simpl in Hs.
      destruct (parseRecord_cases s) as [[_ E]|[Hge _]]; [exact E|lia]. }
  split; [|split].
  - intros Hex. split; [now apply Hthrow|].
    intros p Hp. unfold getCredentials, getStringSet. rewrite Hp. now apply Hthrow.
  - intros l Hl.
    assert (Hall : Forall (fun s => (3 <= length (fields s))%nat) set).
    { apply Forall_forall. intros s Hs.
      destruct (le_lt_dec 3 (length (fields s))) as [H|H]; [exact H|].
      rewrite Hthrow in Hl; [discriminate|].
      apply Exists_exists. eauto. }
    split; [|exact Hall].
    unfold parseCredentials in Hl.
    destruct (mapR parseRecord set) as [pairs|] eqn:E; [|discriminate].
    injection Hl as <-. rewrite length_map.
    rewrite <- (mapR_length _ _ _ E).
    apply Permutation_length, sortedBy_perm.
  - intros Hall. unfold parseCredentials.
    assert (exists pairs, mapR parseRecord set = Returns pairs) as [pairs ->].
    { clear Hthrow. induction Hall as [|s set [Hs _] Hall IH]; simpl; [eauto|].
      destruct (parseRecord_cases s) as [[Hlt _]|[_ [p ->]]]; [lia|].
      destruct IH as [pairs ->]. eauto. }
    eauto.
Qed.

Lemma parseCredentials_short_record_witness :
  parseCredentials ["0;a;b"; "1;c"] = Throws IndexOutOfBoundsException.
Proof.
  apply (parseCredentials_short_record ["0;a;b"; "1;c"]).
  apply Exists_cons_tl, Exists_cons_hd. vm_compute. lia.
Defined.

(** ** Symbolic runs *)

Ltac unfold_ops :=
  unfold run, username, password, clearToken, signOut, registerRequest,
    registerResponse, signinRequest, signinResponse, setFido2APiClient,
    onActive, onInactive, withClient, get_lastKnownChallenge, call, postValue,
    Log_e, prefs_getString, set_lastKnownChallenge, edit,
    invokeSignInStateListeners, tryFinally, tryCatch, bind, lift, emit, notNull,
    get, ret, throw, result_of, repo_of, events_of.

Ltac unfold_ops_in H :=
  unfold run, username, password, clearToken, signOut, registerRequest,
    registerResponse, signinRequest, signinResponse, setFido2APiClient,
    onActive, onInactive, withClient, get_lastKnownChallenge, call, postValue,
    Log_e, prefs_getString, set_lastKnownChallenge, edit,
    invokeSignInStateListeners, tryFinally, tryCatch, bind, lift, emit, notNull,
    get, ret, throw, result_of, repo_of, events_of in H.

Ltac case_step :=
  match goal with
  | |- context [match ?x with _ => _ end] =>
      lazymatch x with
      | context [match _ with _ => _ end] => fail
      | _ => destruct x eqn:?
      end
  end.

Ltac run_ops := unfold_ops; simpl; repeat (case_step; simpl in *; simplify_eq).

Lemma notifications_app (evs1 evs2 : list Event) :
  notifications (evs1 ++ evs2) = notifications evs1 ++ notifications evs2.
Proof. apply flat_map_app. Qed.

Lemma notifications_broadcast (ls : list Listener) (s : SignInState) :
  notifications (map (fun l => Notified l s) ls) = broadcast ls s.
Proof. induction ls as [|l ls IH]; simpl; [|rewrite IH]; reflexivity. Qed.

Lemma stores_notified (ls : list Listener) (s : SignInState) :
  stores (map (fun l => Notified l s) ls) = [].
Proof. induction ls as [|l ls IH]; simpl; auto. Qed.

Lemma logged_notified (ls : list Listener) (s : SignInState) :
  logged (map (fun l => Notified l s) ls) = [].
Proof. induction ls as [|l ls IH]; simpl; auto. Qed.

Lemma stores_app (evs1 evs2 : list Event) :
  stores (evs1 ++ evs2) = stores evs1 ++ stores evs2.
Proof. apply flat_map_app. Qed.

Lemma logged_app (evs1 evs2 : list Event) :
  logged (evs1 ++ evs2) = logged evs1 ++ logged evs2.
Proof. apply flat_map_app. Qed.

Lemma received_broadcast (l : Listener) (ls : list Listener) (s : SignInState) :
  map snd (List.filter (fun told => Nat.eqb (fst told) l) (broadcast ls s)) =
    repeat s (count_occ Nat.eq_dec ls l).
Proof.
  induction ls as [|x ls IH]; simpl; [reflexivity|].
  destruct (Nat.eqb_spec x l) as [->|Hne]; destruct (Nat.eq_dec _ _); simpl;
    try congruence; now rewrite IH.
Qed.

Ltac lookups :=
  rewrite ?lookup_delete, ?lookup_insert; repeat (case_decide; try done).

Ltac trace_simpl :=
  simpl;
  rewrite ?notifications_app, ?notifications_broadcast, ?stores_app, ?logged_app,
    ?stores_notified, ?logged_notified;
  simpl; rewrite ?List.app_nil_r.

(** ** The derived state *)

(** C2 fails as stated: a user name that is stored but blank derives
    [SignedOut], and a token that is stored but blank derives [SigningIn]. *)
Lemma blank_field_counterexample :
  (let p : gmap string PrefValue := {[ PREF_USERNAME := PString "" ]} in
   present p PREF_USERNAME /\ ~ present p PREF_TOKEN /\
   getSignInState p = Returns SignedOut /\
   getSignInState p <> Returns (SigningIn ""))
  /\
  (let p : gmap string PrefValue :=
     <[ PREF_TOKEN := PString " " ]> {[ PREF_USERNAME := PString "bob" ]} in
   present p PREF_USERNAME /\ present p PREF_TOKEN /\
   getSignInState p = Returns (SigningIn "bob") /\
   getSignInState p <> Returns (SignedIn "bob" " ")).
Proof.
  split; cbv zeta; unfold present.
  - split; [by eexists|]. split; [by intros [? ?]|]. split; [reflexivity|discriminate].
  - split; [by eexists|]. split; [by eexists|]. split; [reflexivity|discriminate].
Qed.

(** C2, amended: the derived state depends on the stored user name and token
    only; it is [SignedOut] when the user name is absent or blank,
    [SigningIn] with the user name when that is present and not blank and the
    token is absent or blank, [SignedIn] with both when both are present and
    not blank. *)
Theorem getSignInState_of_fields (p : gmap string PrefValue)
    (stored_username stored_token : option string) :
  getString p PREF_USERNAME = Returns stored_username ->
  getString p PREF_TOKEN = Returns stored_token ->
  (isNullOrBlank stored_username = true -> getSignInState p = Returns SignedOut)
  /\
  (forall name,
     stored_username = Some name -> isBlank name = false ->
     isNullOrBlank stored_token = true ->
     getSignInState p = Returns (SigningIn name))
  /\
  (forall name tok,
     stored_username = Some name -> isBlank name = false ->
     stored_token = Some tok -> isBlank tok = false ->
     getSignInState p = Returns (SignedIn name tok))
  /\
  (forall p' : gmap string PrefValue,
     getString p' PREF_USERNAME = getString p PREF_USERNAME ->
     getString p' PREF_TOKEN = getString p PREF_TOKEN ->
     getSignInState p' = getSignInState p).
Proof.
  intros Hu Ht. unfold getSignInState. rewrite Hu, Ht.
  repeat split.
  - intros Hb. unfold whenSignInState. rewrite Hb. now destruct stored_username.
  - intros name -> Hn Hb. unfold whenSignInState. simpl. now rewrite Hn, Hb.
  - intros name tok -> Hn -> Hk. unfold whenSignInState. simpl. now rewrite Hn, Hk.
  - intros p' -> ->. reflexivity.
Qed.

Lemma getSignInState_of_fields_witness :
  getSignInState (<[ PREF_TOKEN := PString "t0" ]> {[ PREF_USERNAME := PString "alice" ]})
  = Returns (SignedIn "alice" "t0").
Proof.
  apply (getSignInState_of_fields
           (<[ PREF_TOKEN := PString "t0" ]> {[ PREF_USERNAME := PString "alice" ]})
           (Some "alice") (Some "t0"));
    reflexivity.
Defined.

(** ** Password sign-in and sign-out *)

(** C3: when the server rejects the password, the block logs the exception,
    removes user name, token and credential set in one committed edit, then
    tells every listener [SignInError] with the server's message, or with
    the default message when there is none, and returns. *)
Theorem password_mismatch_hard_reset (c : Collaborators) (r : Repo)
    (pw name : string) (message : option string) :
  getString (prefs r) PREF_USERNAME = Returns (Some name) ->
  api_password (api c) name pw = Throws (ApiException message) ->
  let out := password c pw r in
  let p' := prefs (repo_of out) in
  let error := SignInError (default DEFAULT_ERROR message) in
  result_of out = Returns tt /\
  p' !! PREF_USERNAME = None /\ p' !! PREF_TOKEN = None /\
  p' !! PREF_CREDENTIALS = None /\
  notifications (events_of out) = broadcast (signInStateListeners r) error /\
  exists log,
    events_of out =
      [Posted true; Called (CallPassword name pw);
       Logged TAG log (ApiException message); Edited true p']
      ++ map (fun l => Notified l error) (signInStateListeners r)
      ++ [Posted false].
Proof.
  intros Hu Ha. cbv zeta.
  unfold_ops. simpl. rewrite Hu. simpl. rewrite Ha. simpl.
  repeat split; lookups.
  - rewrite notifications_app, notifications_broadcast. simpl. apply List.app_nil_r.
  - eexists. reflexivity.
Qed.

Lemma password_mismatch_hard_reset_witness :
  let out := password wrong_password "wrongpw" signing_in_repo in
  prefs (repo_of out) !! PREF_USERNAME = None /\
  notifications (events_of out) =
    [(1%nat, SignInError "invalid credentials");
     (2%nat, SignInError "invalid credentials")].
Proof.
  destruct (password_mismatch_hard_reset wrong_password signing_in_repo
              "wrongpw" "bob" (Some "invalid credentials"))
    as (_ & Hu & _ & _ & Hn & _); [reflexivity|reflexivity|].
  split; [exact Hu|exact Hn].
Defined.

(** C4: from any repository, [signOut] removes user name, token and
    credential set in one committed edit, after which the derived state is
    [SignedOut], and tells every listener [SignedOut]. *)
Theorem signOut_clears (r : Repo) :
  let out := signOut r in
  let p' := prefs (repo_of out) in
  result_of out = Returns tt /\
  p' !! PREF_USERNAME = None /\ p' !! PREF_TOKEN = None /\
  p' !! PREF_CREDENTIALS = None /\
  getSignInState p' = Returns SignedOut /\
  events_of out =
    Edited true p' :: map (fun l => Notified l SignedOut) (signInStateListeners r) /\
  notifications (events_of out) = broadcast (signInStateListeners r) SignedOut.
Proof.
  cbv zeta. unfold_ops. simpl.
  assert (Hu : delete PREF_CREDENTIALS
                 (delete PREF_TOKEN (delete PREF_USERNAME (prefs r)))
               !! PREF_USERNAME = None) by lookups.
  assert (Ht : delete PREF_CREDENTIALS
                 (delete PREF_TOKEN (delete PREF_USERNAME (prefs r)))
               !! PREF_TOKEN = None) by lookups.
  repeat split; try assumption; lookups.
  - unfold getSignInState, getString. now rewrite Hu, Ht.
  - apply notifications_broadcast.
Qed.

(** C9: after a password the server accepts, the store holds the token and,
    as user name, the second element of the server's answer, written after
    the token; the listeners are told [SignedIn] with the user name read
    from the store before the call. *)
Theorem password_success_swaps_username (c : Collaborators) (r : Repo)
    (pw name token username2 : string) (rest : list string) :
  getString (prefs r) PREF_USERNAME = Returns (Some name) ->
  api_password (api c) name pw = Returns (token :: username2 :: rest) ->
  let out := password c pw r in
  let p' := prefs (repo_of out) in
  result_of out = Returns tt /\
  p' !! PREF_USERNAME = Some (PString username2) /\
  p' !! PREF_TOKEN = Some (PString token) /\
  stores (events_of out) = [<[PREF_TOKEN := PString token]> (prefs r); p'] /\
  notifications (events_of out) =
    broadcast (signInStateListeners r) (SignedIn name token).
Proof.
  intros Hu Ha. cbv zeta.
  unfold_ops. simpl. rewrite Hu. simpl. rewrite Ha. simpl.
  repeat split; lookups.
  - now rewrite stores_app, stores_notified.
  - rewrite notifications_app, notifications_broadcast. simpl. apply List.app_nil_r.
Qed.

Lemma password_success_swaps_username_witness :
  let out := password (with_api (answer_with "t0")) "pw" signing_in_repo in
  prefs (repo_of out) !! PREF_USERNAME = Some (PString "@bob") /\
  notifications (events_of out) =
    [(1%nat, SignedIn "bob" "t0"); (2%nat, SignedIn "bob" "t0")].
Proof.
  destruct (password_success_swaps_username (with_api (answer_with "t0"))
              signing_in_repo "pw" "bob" "t0" "@bob" [])
    as (_ & Hu & _ & _ & Hn); [reflexivity|reflexivity|].
  split; [exact Hu|exact Hn].
Defined.

(** ** The token never stands without a user name *)

Lemma getString_present (p : gmap string PrefValue) (key value : string) :
  getString p key = Returns (Some value) -> present p key.
Proof.
  unfold getString, present.
  destruct (p !! key) as [[?|?]|]; try discriminate. by eexists.
Qed.

(** Every operation keeps the invariant, in the store it leaves and in every
    store it writes on the way. *)
Lemma step_invariant (c : Collaborators) (op : Operation) (r : Repo) :
  token_needs_username (prefs r) ->
  token_needs_username (prefs (repo_of (run c op r))) /\
  Forall token_needs_username (stores (events_of (run c op r))).
Proof.
  intros Hinv.
  destruct op; run_ops; trace_simpl; (split; [|repeat constructor]);
    try assumption.
  all: repeat match goal with
       | H : getString _ _ = Returns (Some _) |- _ => apply getString_present in H
       end.
  all: unfold token_needs_username, present in *.
  all: rewrite ?lookup_insert, ?lookup_delete; repeat case_decide; try done.
  all: try (by intros [? ?]).
  all: try (intros _; by eexists).
Qed.

(** Run with nothing in between, the block on the pool is the block. *)
Lemma signinResponse_meanwhile_alone (c : Collaborators) (data : Intent) (r : Repo) :
  signinResponse_meanwhile c data (ret tt) r = signinResponse c data r.
Proof.
  unfold signinResponse_meanwhile, quietly. unfold_ops. simpl.
  repeat (case_step; simpl); reflexivity.
Qed.

(** C5 fails as stated: the blocks run on a pool of threads, and a
    [signinResponse] that has read the user name writes its token after the
    [signOut] that ran while it waited for the server; the store then holds a
    token and no user name. *)
Lemma token_without_username_interleaved :
  let c := with_api (answer_with "t0") in
  let out := signinResponse_meanwhile c (mkIntent (Some "assertion")) signOut
               signin_ready_repo in
  reachable signin_ready_repo /\
  token_needs_username (prefs signin_ready_repo) /\
  prefs (repo_of out) !! PREF_TOKEN = Some (PString "t0") /\
  prefs (repo_of out) !! PREF_USERNAME = None /\
  ~ token_needs_username (prefs (repo_of out)).
Proof.
  cbv zeta.
  assert (Ht : prefs (repo_of (signinResponse_meanwhile (with_api (answer_with "t0"))
                                 (mkIntent (Some "assertion")) signOut
                                 signin_ready_repo)) !! PREF_TOKEN
               = Some (PString "t0")) by reflexivity.
  assert (Hu : prefs (repo_of (signinResponse_meanwhile (with_api (answer_with "t0"))
                                 (mkIntent (Some "assertion")) signOut
                                 signin_ready_repo)) !! PREF_USERNAME
               = None) by reflexivity.
  split; [apply reachable_run, reachable_run, reachable_run, reachable_initial|].
  split; [unfold token_needs_username, present; intros [v Hv]; discriminate Hv|].
  split; [exact Ht|]. split; [exact Hu|].
  unfold token_needs_username, present. rewrite Ht, Hu.
  intros H. destruct (H (ex_intro _ _ eq_refl)) as [v Hv]. discriminate Hv.
Qed.

(** C5, amended: in every repository reached from the empty store when the
    blocks of the operations run one after another, none overlapping
    another, restarts of the process included, a stored token comes with a
    stored user name; so it is in every store written while a further
    operation runs. *)
Theorem token_needs_username_reachable (r : Repo) :
  reachable r ->
  token_needs_username (prefs r) /\
  forall c op, Forall token_needs_username (stores (events_of (run c op r))).
Proof.
  intros Hr.
  assert (Hinv : token_needs_username (prefs r)).
  { induction Hr as [|c op r Hr IH|r Hr IH].
    - unfold token_needs_username, present. simpl. rewrite lookup_empty.
      by intros [? ?].
    - now apply step_invariant.
    - exact IH. }
  split; [exact Hinv|]. intros c op. now apply step_invariant.
Qed.

Lemma token_needs_username_reachable_witness :
  token_needs_username
    (prefs (repo_of (run (with_api (answer_with "t0")) (OpPassword "pw")
                       (repo_of (run (with_api (answer_with "t0"))
                                   (OpUsername "bob") initial))))).
Proof.
  apply token_needs_username_reachable.
  apply reachable_run, reachable_run, reachable_initial.
Defined.

(** ** Ceremonies that fail *)

Ltac answer_cases H :=
  repeat match type of H with
         | context [match ?x with _ => _ end] =>
             lazymatch x with
             | context [match _ with _ => _ end] => fail
             | _ => destruct x eqn:?; simpl in H; try discriminate H
             end
         end.

Ltac use_answers :=
  repeat match goal with
         | E : ?x = _ |- context [?x] => rewrite E; simpl
         end.

(** When no step fails, the operation completes: a response writes the
    store, a request with a client delivers its intent. *)
Lemma ceremony_completes (c : Collaborators) (op : Operation) (r : Repo) :
  ceremony_op op = true ->
  attempted op r = true ->
  ceremony_answer c op r = Returns tt ->
  completed (events_of (run c op r)) = true /\ result_of (run c op r) = Returns tt.
Proof.
  intros Hop Hatt H.
  destruct op; try discriminate Hop; clear Hop;
    unfold ceremony_answer, and_then, stored, must, and_then in H;
    simpl in Hatt; answer_cases H;
    unfold_ops; simpl; use_answers; trace_simpl;
    rewrite ?existsb_app; simpl; rewrite ?orb_true_r; auto.
Qed.

(** C6 fails as stated: a registration response whose intent carries no
    payload throws a [NullPointerException] that nothing logs, and a sign-in
    request the server rejects throws the [ApiException] that nothing logs. *)
Lemma ceremony_failure_not_logged :
  (let op := OpRegisterResponse (mkIntent None) in
   let c := with_api (answer_with "t0") in
   ceremony_answer c op signed_in_repo = Throws NullPointerException /\
   result_of (run c op signed_in_repo) = Throws NullPointerException /\
   logged (events_of (run c op signed_in_repo)) = [])
  /\
  (let e := ApiException (Some "invalid credentials") in
   ceremony_answer wrong_password OpSigninRequest signing_in_repo = Throws e /\
   result_of (run wrong_password OpSigninRequest signing_in_repo) = Throws e /\
   logged (events_of (run wrong_password OpSigninRequest signing_in_repo)) = []).
Proof. split; cbv zeta; repeat split; reflexivity. Qed.

(** C6, amended: when a step of [registerRequest], [registerResponse],
    [signinRequest] or [signinResponse] fails, be it a stored value or the
    challenge that is missing, the payload, the SDK or the server call, the
    store and the state derived from it are unchanged and no listener is told
    anything. [registerRequest] logs the failure and returns when it is an
    [Exception]; [registerResponse] and [signinResponse] log it and return
    when it is an [ApiException], and throw it unlogged otherwise. *)
Theorem ceremony_failures (c : Collaborators) (op : Operation) (r : Repo)
    (e : Throwable) :
  ceremony_op op = true ->
  ceremony_answer c op r = Throws e ->
  let out := run c op r in
  prefs (repo_of out) = prefs r /\
  getSignInState (prefs (repo_of out)) = getSignInState (prefs r) /\
  notifications (events_of out) = [] /\
  match op with
  | OpRegisterRequest =>
      if isException e
      then logged (events_of out) = [e] /\ result_of out = Returns tt
      else logged (events_of out) = [] /\ result_of out = Throws e
  | OpRegisterResponse _ | OpSigninResponse _ =>
      match e with
      | ApiException _ => logged (events_of out) = [e] /\ result_of out = Returns tt
      | _ => logged (events_of out) = [] /\ result_of out = Throws e
      end
  | _ => True
  end.
Proof.
  intros Hop H. cbv zeta.
  destruct op; try discriminate Hop; clear Hop;
    unfold ceremony_answer, and_then, stored, must, and_then in H;
    answer_cases H; simplify_eq;
    unfold_ops; simpl; use_answers; trace_simpl;
    repeat split; try reflexivity.
  all: try (destruct (isException e) eqn:He; trace_simpl; auto).
  all: try (destruct e; trace_simpl; auto).
Qed.

Lemma ceremony_failures_witness :
  let op := OpSigninResponse (mkIntent (Some "assertion")) in
  let out := run wrong_password op signing_in_repo in
  prefs (repo_of out) = prefs signing_in_repo /\
  getSignInState (prefs (repo_of out)) = getSignInState (prefs signing_in_repo) /\
  notifications (events_of out) = [] /\
  logged (events_of out) = [ApiException (Some "invalid credentials")] /\
  result_of out = Returns tt.
Proof.
  apply (ceremony_failures wrong_password
           (OpSigninResponse (mkIntent (Some "assertion"))) signing_in_repo
           (ApiException (Some "invalid credentials")));
    reflexivity.
Defined.

(** ** Notifications *)

(** C7: an operation tells the listeners what the table of transitions has
    for it: every listener of the list the one resulting state when the
    operation completes a transition, and nothing otherwise. So a listener
    registered once is told exactly once, two listeners are told the same
    state, the requests and [registerResponse] tell nothing, and neither does
    an operation that throws. *)
Theorem notified_exactly_once (c : Collaborators) (op : Operation) (r : Repo) :
  let out := run c op r in
  let told := match spec_transition c op r with
              | Some s => [s]
              | None => []
              end in
  notifications (events_of out) =
    match spec_transition c op r with
    | Some s => broadcast (signInStateListeners r) s
    | None => []
    end
  /\
  (forall l, count_occ Nat.eq_dec (signInStateListeners r) l = 1%nat ->
             received l (events_of out) = told)
  /\
  (forall a b, a <> b -> signInStateListeners r = [a; b] ->
               received a (events_of out) = told /\
               received b (events_of out) = told)
  /\
  match op with
  | OpRegisterRequest | OpRegisterResponse _ | OpSigninRequest =>
      notifications (events_of out) = []
  | _ => True
  end
  /\
  (forall e, result_of out = Throws e -> notifications (events_of out) = []).
Proof.
  cbv zeta.
  assert (Hn : notifications (events_of (run c op r)) =
               match spec_transition c op r with
               | Some s => broadcast (signInStateListeners r) s
               | None => []
               end).
  { destruct op; unfold spec_transition; run_ops; trace_simpl;
      try reflexivity; congruence. }
  assert (Hone : forall l,
             count_occ Nat.eq_dec (signInStateListeners r) l = 1%nat ->
             received l (events_of (run c op r)) =
               match spec_transition c op r with
               | Some s => [s]
               | None => []
               end).
  { intros l Hl. unfold received. rewrite Hn.
    destruct (spec_transition c op r); [|reflexivity].
    now rewrite received_broadcast, Hl. }
  split; [exact Hn|]. split; [exact Hone|]. split; [|split].
  - intros a b Hab Hls. split; apply Hone; rewrite Hls; simpl;
      destruct (Nat.eq_dec a a), (Nat.eq_dec b b), (Nat.eq_dec a b),
        (Nat.eq_dec b a); congruence.
  - destruct op; try exact I; rewrite Hn; reflexivity.
  - intros e. clear Hn Hone.
    destruct op; run_ops; trace_simpl; try reflexivity; congruence.
Qed.

Lemma notified_exactly_once_witness :
  let out := run wrong_password OpSignOut signed_in_repo in
  received 1%nat (events_of out) = [SignedOut] /\
  received 2%nat (events_of out) = [SignedOut].
Proof.
  destruct (notified_exactly_once wrong_password OpSignOut signed_in_repo)
    as (_ & _ & Htwo & _).
  apply (Htwo 1%nat 2%nat); [discriminate|reflexivity].
Defined.

(** ** The local credential id *)

Lemma signinRequest_calls (c : Collaborators) (r : Repo)
    (client : Fido2ApiClient) (name : string) (credentialId : option string) :
  fido2ApiClient r = Some client ->
  getString (prefs r) PREF_USERNAME = Returns (Some name) ->
  getString (prefs r) PREF_LOCAL_CREDENTIAL_ID = Returns credentialId ->
  calls (events_of (signinRequest c r)) = [CallSigninRequest name credentialId].
Proof.
  intros Hc Hu Hl.
  unfold_ops. simpl. rewrite Hc. simpl. rewrite Hu. simpl. rewrite Hl. simpl.
  repeat (case_step; simpl); reflexivity.
Qed.

Lemma signOut_repo (r : Repo) :
  repo_of (signOut r) =
    mkRepo (delete PREF_CREDENTIALS (delete PREF_TOKEN (delete PREF_USERNAME (prefs r))))
      (fido2ApiClient r) (signInStateListeners r) (lastKnownChallenge r).
Proof. reflexivity. Qed.

Lemma password_reset_repo (c : Collaborators) (r : Repo) (pw name : string)
    (message : option string) :
  getString (prefs r) PREF_USERNAME = Returns (Some name) ->
  api_password (api c) name pw = Throws (ApiException message) ->
  repo_of (password c pw r) = repo_of (signOut r).
Proof.
  intros Hu Ha. unfold_ops. simpl. rewrite Hu. simpl. rewrite Ha. reflexivity.
Qed.

Lemma username_repo (c : Collaborators) (r : Repo) (name result : string) :
  api_username (api c) name = Returns result ->
  repo_of (username c name r) =
    mkRepo (<[PREF_USERNAME := PString result]> (prefs r))
      (fido2ApiClient r) (signInStateListeners r) (lastKnownChallenge r).
Proof. intros Ha. unfold_ops. simpl. rewrite Ha. reflexivity. Qed.

(** C10: [signOut] and the reset after a rejected password leave the entry
    of the local credential id as it was; a sign-in request reads the entry
    and hands it to the server, also the request that follows such a reset
    and a new user name. *)
Theorem local_credential_id_kept (c : Collaborators) (r : Repo) :
  prefs (repo_of (signOut r)) !! PREF_LOCAL_CREDENTIAL_ID =
    prefs r !! PREF_LOCAL_CREDENTIAL_ID
  /\
  (forall pw name message,
     getString (prefs r) PREF_USERNAME = Returns (Some name) ->
     api_password (api c) name pw = Throws (ApiException message) ->
     prefs (repo_of (password c pw r)) !! PREF_LOCAL_CREDENTIAL_ID =
       prefs r !! PREF_LOCAL_CREDENTIAL_ID)
  /\
  (forall client name credentialId,
     fido2ApiClient r = Some client ->
     getString (prefs r) PREF_USERNAME = Returns (Some name) ->
     getString (prefs r) PREF_LOCAL_CREDENTIAL_ID = Returns credentialId ->
     calls (events_of (signinRequest c r)) = [CallSigninRequest name credentialId])
  /\
  (forall c1 c2 reset client name result credentialId,
     reset = repo_of (signOut r) \/
     (exists pw old message,
        getString (prefs r) PREF_USERNAME = Returns (Some old) /\
        api_password (api c) old pw = Throws (ApiException message) /\
        reset = repo_of (password c pw r)) ->
     fido2ApiClient r = Some client ->
     getString (prefs r) PREF_LOCAL_CREDENTIAL_ID = Returns credentialId ->
     api_username (api c1) name = Returns result ->
     calls (events_of (signinRequest c2 (repo_of (username c1 name reset)))) =
       [CallSigninRequest result credentialId]).
Proof.
  assert (Hkept : prefs (repo_of (signOut r)) !! PREF_LOCAL_CREDENTIAL_ID =
                  prefs r !! PREF_LOCAL_CREDENTIAL_ID).
  { rewrite signOut_repo. simpl. by rewrite !lookup_delete_ne. }
  split; [exact Hkept|]. split; [|split].
  - intros pw name message Hu Ha.
    now rewrite (password_reset_repo c r pw name message Hu Ha).
  - intros client name credentialId. apply signinRequest_calls.
  - intros c1 c2 reset client name result credentialId Hreset Hc Hl Hr.
    assert (reset = repo_of (signOut r)) as ->.
    { destruct Hreset as [->|(pw & old & message & Hu & Ha & ->)];
        [reflexivity|exact (password_reset_repo c r pw old message Hu Ha)]. }
    rewrite (username_repo c1 _ name result Hr).
    apply (signinRequest_calls c2 _ client); simpl.
    + exact Hc.
    + unfold getString. now rewrite lookup_insert_eq.
    + unfold getString in *. rewrite lookup_insert_ne by done.
      now rewrite !lookup_delete_ne by done.
Qed.

Lemma local_credential_id_kept_witness :
  calls (events_of (signinRequest (with_api (answer_with "t0"))
                      (repo_of (username (with_api (answer_with "t0")) "carol"
                                  (repo_of (signOut signed_in_repo)))))) =
    [CallSigninRequest "carol" (Some "id0")].
Proof.
  destruct (local_credential_id_kept wrong_password signed_in_repo)
    as (_ & _ & _ & Hnext).
  apply (Hnext (with_api (answer_with "t0")) (with_api (answer_with "t0"))
           (repo_of (signOut signed_in_repo)) a_client "carol" "carol" (Some "id0"));
    [left; reflexivity|reflexivity|reflexivity|reflexivity].
Defined.

(** * Further properties of the repository *)

(** ** Traces *)

Lemma posted_app (evs1 evs2 : list Event) :
  posted (evs1 ++ evs2) = posted evs1 ++ posted evs2.
Proof. apply flat_map_app. Qed.

Lemma posted_notified (ls : list Listener) (s : SignInState) :
  posted (map (fun l => Notified l s) ls) = [].
Proof. induction ls as [|l ls IH]; simpl; auto. Qed.

Lemma calls_app (evs1 evs2 : list Event) :
  calls (evs1 ++ evs2) = calls evs1 ++ calls evs2.
Proof. apply flat_map_app. Qed.

Lemma calls_notified (ls : list Listener) (s : SignInState) :
  calls (map (fun l => Notified l s) ls) = [].
Proof. induction ls as [|l ls IH]; simpl; auto. Qed.

Lemma edits_app (evs1 evs2 : list Event) :
  edits (evs1 ++ evs2) = edits evs1 ++ edits evs2.
Proof. apply flat_map_app. Qed.

Lemma edits_notified (ls : list Listener) (s : SignInState) :
  edits (map (fun l => Notified l s) ls) = [].
Proof. induction ls as [|l ls IH]; simpl; auto. Qed.

Lemma delivered_app (evs1 evs2 : list Event) :
  delivered (evs1 ++ evs2) = delivered evs1 ++ delivered evs2.
Proof. apply flat_map_app. Qed.

Lemma delivered_notified (ls : list Listener) (s : SignInState) :
  delivered (map (fun l => Notified l s) ls) = [].
Proof. induction ls as [|l ls IH]; simpl; auto. Qed.

Ltac views :=
  simpl;
  rewrite ?notifications_app, ?notifications_broadcast, ?stores_app, ?logged_app,
    ?stores_notified, ?logged_notified, ?posted_app, ?posted_notified,
    ?calls_app, ?calls_notified, ?edits_app, ?edits_notified,
    ?delivered_app, ?delivered_notified;
  simpl; rewrite ?List.app_nil_r.

(** ** The runs of the operations on their main paths *)

Lemma username_run (c : Collaborators) (r : Repo) (name result : string) :
  api_username (api c) name = Returns result ->
  username c name r =
    (Returns tt,
     mkRepo (<[PREF_USERNAME := PString result]> (prefs r)) (fido2ApiClient r)
       (signInStateListeners r) (lastKnownChallenge r),
     [Posted true; Called (CallUsername name);
      Edited true (<[PREF_USERNAME := PString result]> (prefs r))]
     ++ map (fun l => Notified l (SigningIn name)) (signInStateListeners r)
     ++ [Posted false]).
Proof. intros Ha. unfold_ops. simpl. rewrite Ha. reflexivity. Qed.

Lemma clearToken_run (r : Repo) (name : string) :
  getString (prefs r) PREF_USERNAME = Returns (Some name) ->
  clearToken r =
    (Returns tt,
     mkRepo (delete PREF_CREDENTIALS (delete PREF_TOKEN (prefs r)))
       (fido2ApiClient r) (signInStateListeners r) (lastKnownChallenge r),
     Edited true (delete PREF_CREDENTIALS (delete PREF_TOKEN (prefs r)))
     :: map (fun l => Notified l (SigningIn name)) (signInStateListeners r)).
Proof. intros Hu. unfold_ops. simpl. rewrite Hu. reflexivity. Qed.

Lemma registerRequest_run (c : Collaborators) (r : Repo)
    (client : Fido2ApiClient) (token name : string) (answer : Options * string)
    (intent : Fido2PendingIntent) :
  fido2ApiClient r = Some client ->
  getString (prefs r) PREF_TOKEN = Returns (Some token) ->
  getString (prefs r) PREF_USERNAME = Returns (Some name) ->
  api_registerRequest (api c) token name = Returns answer ->
  getRegisterIntent client (fst answer) = Returns intent ->
  registerRequest c r =
    (Returns tt,
     mkRepo (prefs r) (fido2ApiClient r) (signInStateListeners r) (Some (snd answer)),
     [Posted true; Called (CallRegisterRequest token name); Delivered intent;
      Posted false]).
Proof.
  intros Hc Ht Hu Ha Hi. unfold_ops. simpl. rewrite Hc. simpl. rewrite Ht. simpl.
  rewrite Hu. simpl. rewrite Ha. simpl. rewrite Hi. simpl. now rewrite ?Hc.
Qed.

Lemma signinRequest_run (c : Collaborators) (r : Repo)
    (client : Fido2ApiClient) (name : string) (credentialId : option string)
    (answer : Options * string) (intent : Fido2PendingIntent) :
  fido2ApiClient r = Some client ->
  getString (prefs r) PREF_USERNAME = Returns (Some name) ->
  getString (prefs r) PREF_LOCAL_CREDENTIAL_ID = Returns credentialId ->
  api_signinRequest (api c) name credentialId = Returns answer ->
  getSignIntent client (fst answer) = Returns intent ->
  signinRequest c r =
    (Returns tt,
     mkRepo (prefs r) (fido2ApiClient r) (signInStateListeners r) (Some (snd answer)),
     [Posted true; Called (CallSigninRequest name credentialId); Delivered intent;
      Posted false]).
Proof.
  intros Hc Hu Hl Ha Hi. unfold_ops. simpl. rewrite Hc. simpl. rewrite Hu. simpl.
  rewrite Hl. simpl. rewrite Ha. simpl. rewrite Hi. simpl. now rewrite ?Hc.
Qed.

Lemma registerResponse_run (c : Collaborators) (r : Repo) (data : Intent)
    (token challenge bytes : string) (response : AuthenticatorResponse)
    (credentials : list Credential) :
  getString (prefs r) PREF_TOKEN = Returns (Some token) ->
  lastKnownChallenge r = Some challenge ->
  FIDO2_KEY_RESPONSE_EXTRA data = Some bytes ->
  deserializeAttestation c bytes = Returns response ->
  api_registerResponse (api c) token challenge response = Returns credentials ->
  let p' := <[PREF_LOCAL_CREDENTIAL_ID := PString (toBase64 c (keyHandle response))]>
              (<[PREF_CREDENTIALS := PStringSet (toStringSet credentials)]> (prefs r)) in
  registerResponse c data r =
    (Returns tt,
     mkRepo p' (fido2ApiClient r) (signInStateListeners r) (lastKnownChallenge r),
     [Posted true; Called (CallRegisterResponse token challenge response);
      Edited false p'; Posted false]).
Proof.
  intros Ht Hc Hb Hd Ha. cbv zeta.
  unfold_ops. simpl. rewrite Ht. simpl. rewrite Hc. simpl. rewrite Hb. simpl.
  rewrite Hd. simpl. rewrite Ha. simpl. now rewrite ?Hc.
Qed.

Lemma signinResponse_run (c : Collaborators) (r : Repo) (data : Intent)
    (name challenge : string) (response : AuthenticatorResponse)
    (credentials : list Credential) (token : string) :
  getString (prefs r) PREF_USERNAME = Returns (Some name) ->
  lastKnownChallenge r = Some challenge ->
  deserializeAssertion c (FIDO2_KEY_RESPONSE_EXTRA data) = Returns response ->
  api_signinResponse (api c) name challenge response = Returns (credentials, token) ->
  let p' := <[PREF_LOCAL_CREDENTIAL_ID := PString (toBase64 c (keyHandle response))]>
              (<[PREF_CREDENTIALS := PStringSet (toStringSet credentials)]>
                 (<[PREF_TOKEN := PString token]> (prefs r))) in
  signinResponse c data r =
    (Returns tt,
     mkRepo p' (fido2ApiClient r) (signInStateListeners r) (lastKnownChallenge r),
     [Posted true; Called (CallSigninResponse name challenge response);
      Edited true p']
     ++ map (fun l => Notified l (SignedIn name token)) (signInStateListeners r)
     ++ [Posted false]).
Proof.
  intros Hu Hc Hd Ha. cbv zeta.
  unfold_ops. simpl. rewrite Hu. simpl. rewrite Hc. simpl. rewrite Hd. simpl.
  rewrite Ha. simpl. now rewrite ?Hc.
Qed.

Lemma getString_lookup (p : gmap string PrefValue) (key value : string) :
  getString p key = Returns (Some value) <-> p !! key = Some (PString value).
Proof.
  unfold getString. destruct (p !! key) as [[?|?]|]; split; congruence.
Qed.

(** ** Submitting the user name *)

(** X1. When the server accepts the name, [username] stores the server's
    answer as user name in one committed edit and touches no other key; the
    state derived afterwards carries the stored answer, not the name typed:
    [SigningIn] without a stored token, [SignedIn] with one. *)
Theorem username_stores_answer (c : Collaborators) (r : Repo)
    (name result : string) :
  api_username (api c) name = Returns result ->
  let out := username c name r in
  let p' := prefs (repo_of out) in
  result_of out = Returns tt /\
  p' = <[PREF_USERNAME := PString result]> (prefs r) /\
  edits (events_of out) = [(true, p')] /\
  (prefs r !! PREF_TOKEN = None -> isBlank result = false ->
   getSignInState p' = Returns (SigningIn result)) /\
  (forall token, prefs r !! PREF_TOKEN = Some (PString token) ->
     isBlank result = false -> isBlank token = false ->
     getSignInState p' = Returns (SignedIn result token)).
Proof.
  intros Ha. cbv zeta. rewrite (username_run c r name result Ha).
  unfold result_of, repo_of, events_of. views.
  repeat split.
  - intros Ht Hb. unfold getSignInState, getString.
    rewrite lookup_insert_eq, lookup_insert_ne, Ht by done.
    unfold whenSignInState. simpl. now rewrite Hb.
  - intros token Ht Hb Hk. unfold getSignInState, getString.
    rewrite lookup_insert_eq, lookup_insert_ne, Ht by done.
    unfold whenSignInState. simpl. now rewrite Hb, Hk.
Qed.

Lemma username_stores_answer_witness :
  getSignInState
    (prefs (repo_of (username (with_api (answer_with "t0")) "bob" signed_out_repo)))
  = Returns (SigningIn "bob").
Proof.
  apply (username_stores_answer (with_api (answer_with "t0")) signed_out_repo
           "bob" "bob"); reflexivity.
Defined.

(** X2. When the server call throws, [username] throws the same throwable
    to the executor, leaves the repository as it was, tells no listener, and
    still resets the sending flag. *)
Theorem username_failure (c : Collaborators) (r : Repo) (name : string)
    (e : Throwable) :
  api_username (api c) name = Throws e ->
  let out := username c name r in
  result_of out = Throws e /\ repo_of out = r /\
  events_of out = [Posted true; Called (CallUsername name); Posted false].
Proof.
  intros Ha. cbv zeta. unfold_ops. simpl. rewrite Ha. simpl.
  destruct r; auto.
Qed.

Lemma username_failure_witness :
  result_of (username wrong_password "bob" signed_out_repo) =
    Throws (ApiException (Some "invalid credentials")).
Proof.
  apply (username_failure wrong_password signed_out_repo "bob"). reflexivity.
Defined.

(** ** The in-flight flag *)

(** X3. The flag handed to an operation is posted [true] and then [false]
    exactly once each, on every path, by [username], [registerResponse],
    [signinResponse], by the two requests when a client is set, and by
    [password] when a user name is stored. [password] without a stored user
    name posts [true] and throws before its [try], so the flag is never
    reset; the two requests without a client post nothing. *)
Theorem processing_flag (c : Collaborators) (op : Operation) (r : Repo) :
  let out := run c op r in
  match op with
  | OpPassword _ =>
      (exists name, getString (prefs r) PREF_USERNAME = Returns (Some name)) /\
      posted (events_of out) = [true; false]
      \/
      (forall name, getString (prefs r) PREF_USERNAME <> Returns (Some name)) /\
      posted (events_of out) = [true] /\ exists e, result_of out = Throws e
  | OpClearToken | OpSignOut | OpSetClient _ | OpOnActive _ | OpOnInactive _ =>
      posted (events_of out) = []
  | OpRegisterRequest | OpSigninRequest =>
      posted (events_of out) =
        match fido2ApiClient r with
        | Some _ => [true; false]
        | None => []
        end
  | _ => posted (events_of out) = [true; false]
  end.
Proof.
  cbv zeta. destruct op; run_ops; views; try reflexivity; try congruence.
  all: try (left; split; [eexists; reflexivity|reflexivity]).
  all: try (right; split; [intros ? ?; discriminate|split; [reflexivity|eauto]]).
Qed.

(** ** Password sign-in: the edges *)

(** X4. When the server's answer to [password] has fewer than two elements,
    the block throws [IndexOutOfBoundsException] before any write: the
    repository is unchanged, nobody is told, the flag is reset. *)
Theorem password_short_answer (c : Collaborators) (r : Repo)
    (pw name : string) (returnData : list string) :
  getString (prefs r) PREF_USERNAME = Returns (Some name) ->
  api_password (api c) name pw = Returns returnData ->
  (length returnData < 2)%nat ->
  let out := password c pw r in
  result_of out = Throws IndexOutOfBoundsException /\
  repo_of out = r /\
  events_of out = [Posted true; Called (CallPassword name pw); Posted false].
Proof.
  intros Hu Ha Hlen. cbv zeta.
  unfold_ops. simpl. rewrite Hu. simpl. rewrite Ha. simpl.
  destruct returnData as [|a [|b l]]; simpl in *; try lia; destruct r; auto.
Qed.

Lemma password_short_answer_witness :
  let c := with_api (mkApi (fun n => Returns n) (fun _ _ => Returns ["t0"])
                       (fun _ _ => Throws NullPointerException)
                       (fun _ _ _ => Throws NullPointerException)
                       (fun _ _ => Throws NullPointerException)
                       (fun _ _ _ => Throws NullPointerException)) in
  result_of (password c "pw" signing_in_repo) = Throws IndexOutOfBoundsException.
Proof.
  cbv zeta.
  apply (password_short_answer _ signing_in_repo "pw" "bob" ["t0"]);
    [reflexivity|reflexivity|simpl; lia].
Defined.

(** X5. Without a stored user name, [password], [clearToken],
    [signinResponse] and, with a client set, [signinRequest] throw a
    [NullPointerException] before they call the server or write anything: the
    repository is unchanged, no listener is told, nothing is logged. *)
Theorem missing_username (c : Collaborators) (op : Operation) (r : Repo) :
  prefs r !! PREF_USERNAME = None ->
  match op with
  | OpPassword _ | OpClearToken | OpSigninResponse _ => True
  | OpSigninRequest => is_Some (fido2ApiClient r)
  | _ => False
  end ->
  let out := run c op r in
  result_of out = Throws NullPointerException /\
  repo_of out = r /\
  calls (events_of out) = [] /\ edits (events_of out) = [] /\
  notifications (events_of out) = [] /\ logged (events_of out) = [].
Proof.
  intros Hu Hop. cbv zeta.
  assert (Hg : getString (prefs r) PREF_USERNAME = Returns None)
    by (unfold getString; now rewrite Hu).
  destruct op; try contradiction.
  - unfold_ops. simpl. rewrite Hg. destruct r; simpl; auto 10.
  - unfold_ops. simpl. rewrite Hg. destruct r; simpl; auto 10.
  - destruct Hop as [client Hc].
    unfold_ops. simpl. rewrite Hc. simpl. rewrite Hg. destruct r; simpl; auto 10.
  - unfold_ops. simpl. rewrite Hg. destruct r; simpl; auto 10.
Qed.

Lemma missing_username_witness :
  result_of (run wrong_password (OpPassword "pw") signed_out_repo) =
    Throws NullPointerException.
Proof.
  apply (missing_username wrong_password (OpPassword "pw") signed_out_repo);
    [reflexivity|exact I].
Defined.

(** ** The codec on any credentials *)

Lemma split_nonempty (d : ascii) (s : string) : split d s <> [].
Proof.
  induction s as [|c s IH]; simpl; [discriminate|].
  destruct (Ascii.eqb c d); [discriminate|].
  destruct (split d s); [contradiction|discriminate].
Qed.

Lemma split_fields_free (d : ascii) (s : string) :
  Forall (fun f => contains d f = false) (split d s).
Proof.
  induction s as [|c s IH]; simpl; [repeat constructor|].
  destruct (Ascii.eqb c d) eqn:E; [constructor; [reflexivity|exact IH]|].
  destruct (split d s) as [|f fs]; [repeat constructor; simpl; now rewrite E|].
  inversion IH; subst. constructor; [simpl; now rewrite E|assumption].
Qed.

Lemma split_two_fields (d : ascii) (a b : string) :
  exists f g fs, split d (a +:+ String d b) = f :: g :: fs.
Proof.
  induction a as [|c a IH]; simpl.
  - rewrite Ascii.eqb_refl. destruct (split d b) as [|g fs] eqn:E;
      [now apply split_nonempty in E|eauto].
  - destruct IH as (f & g & fs & ->).
    destruct (Ascii.eqb c d); eauto.
Qed.

Lemma parseRecord_record_of_any (i : nat) (c : Credential) :
  parseRecord (record_of i c) = Returns (Int_toString i, cut c).
Proof.
  unfold parseRecord, record_of, cut.
  rewrite split_app by apply string_of_uint_free.
  destruct (split_two_fields DELIM (id c) (publicKey c)) as (f & g & fs & ->).
  reflexivity.
Qed.

Lemma cut_fixed (c : Credential) : cut c = c <-> delimiter_free c.
Proof.
  unfold cut, delimiter_free. split.
  - pose proof (split_fields_free DELIM (id c +:+ String DELIM (publicKey c))) as Hf.
    destruct (split_two_fields DELIM (id c) (publicKey c)) as (f & g & fs & E).
    rewrite E in *. intros <-. simpl.
    inversion Hf as [|? ? Hf1 Hf']; subst. inversion Hf'; subst. auto.
  - intros [Hi Hp]. rewrite split_app, split_free by assumption. now destruct c.
Qed.

Lemma map_cut_free (x : list Credential) :
  Forall delimiter_free x -> map cut x = x.
Proof.
  induction 1 as [|c x Hc Hx IH]; simpl; [reflexivity|].
  rewrite IH. f_equal. now apply cut_fixed.
Qed.

Lemma records_NoDup_any (x : list Credential) :
  forall i, NoDup (mapIndexed_from record_of i x).
Proof.
  induction x as [|c x IH]; simpl; intros i; constructor; [|apply IH].
  intros Hin. apply in_mapIndexed_from in Hin as (j & c' & E & Hj & _).
  apply (f_equal parseRecord) in E.
  rewrite !parseRecord_record_of_any in E.
  injection E as E _. apply Int_toString_inj in E. lia.
Qed.

Lemma toStringSet_any (x : list Credential) :
  toStringSet x = mapIndexed record_of x.
Proof. apply toSet_NoDup, records_NoDup_any. Qed.

Lemma mapIndexed_from_length {A B : Type} (f : nat -> A -> B) (l : list A) :
  forall i, length (mapIndexed_from f i l) = length l.
Proof. induction l as [|a l IH]; simpl; intros i; [|rewrite IH]; reflexivity. Qed.

(** The pairs the decoding sorts, for a set that holds the records of [x]. *)
Lemma parsed_pairs (x : list Credential) (set : list string) :
  Permutation set (toStringSet x) ->
  exists pairs,
    mapR parseRecord set = Returns pairs /\
    Permutation pairs
      (mapIndexed_from (fun j c => (Int_toString j, cut c)) 0 x).
Proof.
  intros Hperm. rewrite toStringSet_any in Hperm. unfold mapIndexed in Hperm.
  set (g := fun s => match parseRecord s with
                     | Returns p => p
                     | Throws _ => (EmptyString, mkCredential "" "")
                     end).
  exists (map g set). split.
  - apply mapR_pointwise. intros s Hs.
    apply (Permutation_in _ Hperm) in Hs.
    apply in_mapIndexed_from in Hs as (j & c & -> & _ & _).
    unfold g. now rewrite parseRecord_record_of_any.
  - rewrite (Permutation_map g Hperm), map_mapIndexed_from.
    erewrite mapIndexed_from_ext; [reflexivity|].
    intros j c _. unfold g. now rewrite parseRecord_record_of_any.
Qed.

Lemma mapIndexed_from_pairs_snd (f : Credential -> Credential)
    (x : list Credential) :
  forall i, map snd (mapIndexed_from (fun j c => (Int_toString j, f c)) i x) = map f x.
Proof. induction x as [|c x IH]; simpl; intros i; [|rewrite IH]; reflexivity. Qed.

Lemma indexed_sorted_cut (x : list Credential) :
  forall i, (i + length x <= 10)%nat ->
    StronglySorted (lt_key fst)
      (mapIndexed_from (fun j c => (Int_toString j, cut c)) i x).
Proof.
  induction x as [|c x IH]; simpl; intros i Hi; constructor.
  - apply IH. lia.
  - apply Forall_forall. intros p Hp.
    apply in_mapIndexed_from in Hp as (j & c' & -> & Hj & _).
    unfold lt_key. simpl. apply one_digit_order. lia.
Qed.

(** The round trip through the set, for at most ten credentials of any
    content. *)
Lemma decode_encode_cut (x : list Credential) (set : list string) :
  (length x <= 10)%nat ->
  Permutation set (toStringSet x) ->
  parseCredentials set = Returns (map cut x).
Proof.
  intros Hlen Hperm. unfold parseCredentials.
  destruct (parsed_pairs x set Hperm) as (pairs & -> & Hp).
  f_equal.
  rewrite (sortedBy_of_permutation fst pairs _ (indexed_sorted_cut x 0 Hlen) Hp).
  apply mapIndexed_from_pairs_snd.
Qed.

(** X6. Encoding never merges or drops: whatever the credentials, equal
    ones or ids holding the delimiter included, the set has one record for
    each, in their order. Decoding such a set, in any iteration order, never
    throws, and returns as many credentials as were encoded: the encoded ones
    up to order, each with id and public key cut to the first two fields of
    ["<id>;<publicKey>"]. *)
Theorem encode_decode_any (x : list Credential) (set : list string) :
  Permutation set (toStringSet x) ->
  toStringSet x = mapIndexed record_of x /\
  length (toStringSet x) = length x /\
  exists l, parseCredentials set = Returns l /\
            Permutation l (map cut x) /\ length l = length x.
Proof.
  intros Hperm.
  split; [apply toStringSet_any|].
  split; [rewrite toStringSet_any; apply mapIndexed_from_length|].
  unfold parseCredentials.
  destruct (parsed_pairs x set Hperm) as (pairs & -> & Hp).
  assert (Hl : Permutation (map snd (sortedBy fst pairs)) (map cut x)).
  { rewrite sortedBy_perm, Hp. now rewrite mapIndexed_from_pairs_snd. }
  eexists. split; [reflexivity|]. split; [exact Hl|].
  rewrite (Permutation_length Hl). apply length_map.
Qed.

Lemma encode_decode_any_witness :
  exists l, parseCredentials (rev (toStringSet eleven)) = Returns l /\
            Permutation l (map cut eleven) /\ length l = length eleven.
Proof.
  apply (encode_decode_any eleven (rev (toStringSet eleven))).
  symmetry. apply Permutation_rev.
Defined.

(** X7. For at most ten credentials of any content, decoding the encoded
    set gives the sequence back in its order with every credential cut at
    the delimiter; a credential comes back as it was exactly when its id and
    its public key are free of the delimiter, and an id free of it always
    comes back whole. *)
Theorem decode_encode_cuts (x : list Credential) (set : list string) :
  (length x <= 10)%nat ->
  Permutation set (toStringSet x) ->
  parseCredentials set = Returns (map cut x) /\
  (forall c, cut c = c <-> delimiter_free c) /\
  (forall c, contains DELIM (id c) = false -> id (cut c) = id c).
Proof.
  intros Hlen Hperm.
  split; [now apply decode_encode_cut|]. split; [apply cut_fixed|].
  intros c Hc. unfold cut. rewrite split_app by exact Hc.
  destruct (split DELIM (publicKey c)) as [|g fs] eqn:E;
    [now apply split_nonempty in E|reflexivity].
Qed.

Lemma decode_encode_cuts_witness :
  parseCredentials (toStringSet [mkCredential "a" "p;q"; mkCredential "b;c" "k"]) =
    Returns [mkCredential "a" "p"; mkCredential "b" "c"].
Proof.
  apply (decode_encode_cuts [mkCredential "a" "p;q"; mkCredential "b;c" "k"]
           (toStringSet [mkCredential "a" "p;q"; mkCredential "b;c" "k"]));
    [simpl; lia|reflexivity].
Defined.

Lemma same_snd_permutation {K V : Type} (l1 l2 : list (K * V)) :
  Permutation l1 l2 -> map snd l1 = map snd l2 -> NoDup (map snd l2) -> l1 = l2.
Proof.
  revert l2. induction l1 as [|[k1 v1] l1 IH]; intros [|[k2 v2] l2] Hp Hs Hn;
    try discriminate; [reflexivity|].
  simpl in Hs. injection Hs as -> Hs. inversion Hn as [|? ? Hnot Hn']; subst.
  assert (k1 = k2) as ->.
  { assert (Hin : In (k1, v2) ((k2, v2) :: l2))
      by (eapply Permutation_in; [exact Hp|now left]).
    destruct Hin as [E|Hin]; [congruence|].
    exfalso. apply Hnot. apply (in_map snd) in Hin. exact Hin. }
  f_equal. apply IH; [|exact Hs|exact Hn'].
  eapply Permutation_cons_inv; exact Hp.
Qed.

(** X8. From eleven credentials on the round trip is lost: for more than
    ten pairwise different credentials, free of the delimiter, decoding the
    encoded set, in any iteration order, never gives the sequence back. *)
Theorem decode_encode_beyond_ten (x : list Credential) (set : list string) :
  (10 < length x)%nat ->
  NoDup x ->
  Forall delimiter_free x ->
  Permutation set (toStringSet x) ->
  parseCredentials set <> Returns x.
Proof.
  intros Hlen Hnd Hfree Hperm Hdec.
  unfold parseCredentials in Hdec.
  destruct (parsed_pairs x set Hperm) as (pairs & E & Hp).
  rewrite E in Hdec. injection Hdec as Hdec.
  pose proof (sortedBy_sorted fst pairs) as Hsorted.
  assert (Hsame : sortedBy fst pairs =
                  mapIndexed_from (fun j c => (Int_toString j, cut c)) 0 x).
  { apply same_snd_permutation.
    - now rewrite sortedBy_perm.
    - now rewrite Hdec, mapIndexed_from_pairs_snd, map_cut_free.
    - now rewrite mapIndexed_from_pairs_snd, map_cut_free. }
  rewrite Hsame in Hsorted. clear - Hlen Hsorted.
  do 11 (destruct x as [|? x]; [simpl in Hlen; lia|]).
  simpl in Hsorted.
  inversion Hsorted as [|? ? H0 _]; subst. clear Hsorted.
  inversion H0 as [|? ? H1 _]; subst. clear H0.
  inversion H1 as [|? ? _ H2]; subst. clear H1.
  do 7 (inversion H2 as [|? ? _ H2']; subst; clear H2; rename H2' into H2).
  inversion H2 as [|? ? Hle _]; subst.
  unfold le_key in Hle. vm_compute in Hle. now apply Hle.
Qed.

Lemma decode_encode_beyond_ten_witness :
  parseCredentials (toStringSet eleven) <> Returns eleven.
Proof.
  apply (decode_encode_beyond_ten eleven (toStringSet eleven)).
  - simpl. lia.
  - vm_compute. repeat (constructor; [simpl; intuition discriminate|]). constructor.
  - repeat constructor.
  - reflexivity.
Defined.

(** ** Clearing the token *)



(** ** The responses of the ceremonies *)

(** X10. A sign-in response the server accepts stores the token, the
    encoded credentials and the encoded key handle as local credential id in
    one committed edit and keeps the user name; the server was asked once,
    with the stored name and the remembered challenge; the state derived
    afterwards is the [SignedIn] the listeners were told, when name and token
    are not blank. *)
Theorem signinResponse_success (c : Collaborators) (r : Repo) (data : Intent)
    (name challenge : string) (response : AuthenticatorResponse)
    (credentials : list Credential) (token : string) :
  getString (prefs r) PREF_USERNAME = Returns (Some name) ->
  lastKnownChallenge r = Some challenge ->
  deserializeAssertion c (FIDO2_KEY_RESPONSE_EXTRA data) = Returns response ->
  api_signinResponse (api c) name challenge response = Returns (credentials, token) ->
  let out := signinResponse c data r in
  let p' := prefs (repo_of out) in
  result_of out = Returns tt /\
  p' !! PREF_TOKEN = Some (PString token) /\
  p' !! PREF_CREDENTIALS = Some (PStringSet (toStringSet credentials)) /\
  p' !! PREF_LOCAL_CREDENTIAL_ID = Some (PString (toBase64 c (keyHandle response))) /\
  p' !! PREF_USERNAME = prefs r !! PREF_USERNAME /\
  edits (events_of out) = [(true, p')] /\
  calls (events_of out) = [CallSigninResponse name challenge response] /\
  notifications (events_of out) =
    broadcast (signInStateListeners r) (SignedIn name token) /\
  (isBlank name = false -> isBlank token = false ->
   getSignInState p' = Returns (SignedIn name token)).
Proof.
  intros Hu Hc Hd Ha. cbv zeta.
  rewrite (signinResponse_run c r data name challenge response credentials token
             Hu Hc Hd Ha).
  unfold result_of, repo_of, events_of. views.
  repeat split; lookups.
  intros Hb Hk. apply getString_lookup in Hu.
  unfold getSignInState, getString.
  rewrite !lookup_insert_ne by done. rewrite lookup_insert_eq, Hu.
  unfold whenSignInState. simpl. now rewrite Hb, Hk.
Qed.

Lemma signinResponse_success_witness :
  getSignInState
    (prefs (repo_of (signinResponse (with_api (answer_with "t1"))
                       (mkIntent (Some "assertion")) signing_in_repo)))
  = Returns (SignedIn "bob" "t1").
Proof.
  apply (signinResponse_success (with_api (answer_with "t1")) signing_in_repo
           (mkIntent (Some "assertion")) "bob" "challenge"
           (mkResponse "assertion" "assertion") [mkCredential "id0" "key0"] "t1");
    reflexivity.
Defined.

(** X11. A registration response the server accepts writes the encoded
    credentials and the encoded key handle as local credential id with an
    applied, not committed, edit; user name, token and so the derived state
    are as before, and no listener is told anything. *)
Theorem registerResponse_success (c : Collaborators) (r : Repo) (data : Intent)
    (token challenge bytes : string) (response : AuthenticatorResponse)
    (credentials : list Credential) :
  getString (prefs r) PREF_TOKEN = Returns (Some token) ->
  lastKnownChallenge r = Some challenge ->
  FIDO2_KEY_RESPONSE_EXTRA data = Some bytes ->
  deserializeAttestation c bytes = Returns response ->
  api_registerResponse (api c) token challenge response = Returns credentials ->
  let out := registerResponse c data r in
  let p' := prefs (repo_of out) in
  result_of out = Returns tt /\
  p' !! PREF_CREDENTIALS = Some (PStringSet (toStringSet credentials)) /\
  p' !! PREF_LOCAL_CREDENTIAL_ID = Some (PString (toBase64 c (keyHandle response))) /\
  p' !! PREF_USERNAME = prefs r !! PREF_USERNAME /\
  p' !! PREF_TOKEN = prefs r !! PREF_TOKEN /\
  getSignInState p' = getSignInState (prefs r) /\
  edits (events_of out) = [(false, p')] /\
  calls (events_of out) = [CallRegisterResponse token challenge response] /\
  notifications (events_of out) = [].
Proof.
  intros Ht Hc Hb Hd Ha. cbv zeta.
  rewrite (registerResponse_run c r data token challenge bytes response credentials
             Ht Hc Hb Hd Ha).
  unfold result_of, repo_of, events_of. views.
  repeat split; lookups.
  unfold getSignInState, getString. now rewrite !lookup_insert_ne by done.
Qed.

Lemma registerResponse_success_witness :
  let out := registerResponse (with_api (answer_with "t0"))
               (mkIntent (Some "attestation")) signed_in_repo in
  prefs (repo_of out) !! PREF_LOCAL_CREDENTIAL_ID = Some (PString "attestation").
Proof.
  apply (registerResponse_success (with_api (answer_with "t0")) signed_in_repo
           (mkIntent (Some "attestation")) "t0" "challenge" "attestation"
           (mkResponse "attestation" "attestation") [mkCredential "id0" "key0"]);
    reflexivity.
Defined.

(** X12. What a response stored is what [getCredentials] reads: after a
    registration or a sign-in response the server answered with at most ten
    credentials free of the delimiter, the credentials mapped from the store
    are the server's list, in its order. *)
Theorem credentials_read_back (c : Collaborators) (r : Repo) (data : Intent)
    (credentials : list Credential) :
  (length credentials <= 10)%nat ->
  Forall delimiter_free credentials ->
  (forall token challenge bytes response,
     getString (prefs r) PREF_TOKEN = Returns (Some token) ->
     lastKnownChallenge r = Some challenge ->
     FIDO2_KEY_RESPONSE_EXTRA data = Some bytes ->
     deserializeAttestation c bytes = Returns response ->
     api_registerResponse (api c) token challenge response = Returns credentials ->
     getCredentials (prefs (repo_of (registerResponse c data r))) = Returns credentials)
  /\
  (forall name challenge response token,
     getString (prefs r) PREF_USERNAME = Returns (Some name) ->
     lastKnownChallenge r = Some challenge ->
     deserializeAssertion c (FIDO2_KEY_RESPONSE_EXTRA data) = Returns response ->
     api_signinResponse (api c) name challenge response = Returns (credentials, token) ->
     getCredentials (prefs (repo_of (signinResponse c data r))) = Returns credentials).
Proof.
  intros Hlen Hfree.
  assert (Hdec : forall p : gmap string PrefValue,
             p !! PREF_CREDENTIALS = Some (PStringSet (toStringSet credentials)) ->
             getCredentials p = Returns credentials).
  { intros p Hp. unfold getCredentials, getStringSet. rewrite Hp.
    rewrite (decode_encode_cut credentials) by auto.
    now rewrite map_cut_free. }
  split.
  - intros token challenge bytes response Ht Hc Hb Hd Ha. apply Hdec.
    rewrite (registerResponse_run c r data token challenge bytes response
               credentials Ht Hc Hb Hd Ha).
    unfold repo_of. simpl. lookups.
  - intros name challenge response token Hu Hc Hd Ha. apply Hdec.
    rewrite (signinResponse_run c r data name challenge response credentials
               token Hu Hc Hd Ha).
    unfold repo_of. simpl. lookups.
Qed.

Lemma credentials_read_back_witness :
  getCredentials
    (prefs (repo_of (signinResponse (with_api (answer_with "t1"))
                       (mkIntent (Some "assertion")) signing_in_repo)))
  = Returns [mkCredential "id0" "key0"].
Proof.
  destruct (credentials_read_back (with_api (answer_with "t1")) signing_in_repo
              (mkIntent (Some "assertion")) [mkCredential "id0" "key0"])
    as [_ Hsignin]; [simpl; lia|repeat constructor|].
  apply (Hsignin "bob" "challenge" (mkResponse "assertion" "assertion") "t1");
    reflexivity.
Defined.

(** X13. After [signOut], after the reset of a rejected password and after
    [clearToken], the credentials read from the store are none. *)
Theorem no_credentials_after_reset (c : Collaborators) (r : Repo) :
  getCredentials (prefs (repo_of (signOut r))) = Returns [] /\
  (forall pw name message,
     getString (prefs r) PREF_USERNAME = Returns (Some name) ->
     api_password (api c) name pw = Throws (ApiException message) ->
     getCredentials (prefs (repo_of (password c pw r))) = Returns []) /\
  (forall name,
     getString (prefs r) PREF_USERNAME = Returns (Some name) ->
     getCredentials (prefs (repo_of (clearToken r))) = Returns []).
Proof.
  assert (Hout : getCredentials (prefs (repo_of (signOut r))) = Returns []).
  { rewrite signOut_repo. unfold getCredentials, getStringSet. simpl.
    now rewrite lookup_delete_eq. }
  split; [exact Hout|]. split.
  - intros pw name message Hu Ha.
    now rewrite (password_reset_repo c r pw name message Hu Ha).
  - intros name Hu. rewrite (clearToken_run r name Hu).
    unfold repo_of, getCredentials, getStringSet. simpl.
    now rewrite lookup_delete_eq.
Qed.

Lemma no_credentials_after_reset_witness :
  getCredentials (prefs (repo_of (clearToken signed_in_repo))) = Returns [].
Proof.
  destruct (no_credentials_after_reset wrong_password signed_in_repo)
    as (_ & _ & Hclear).
  apply (Hclear "bob"). reflexivity.
Defined.

(** ** The remembered challenge *)

(** X14. A request remembers the server's challenge as soon as the server
    has answered: [registerRequest], with token and user name stored, and
    [signinRequest], with the user name stored and a token or none, leave the
    store as it is and, when the client then yields an intent, deliver it;
    when the client fails, the new challenge is remembered all the same; when
    the server call fails, the challenge remembered before stays. *)
Theorem requests_remember_challenge (c : Collaborators) (r : Repo)
    (client : Fido2ApiClient) (name : string) :
  fido2ApiClient r = Some client ->
  getString (prefs r) PREF_USERNAME = Returns (Some name) ->
  (forall token,
     getString (prefs r) PREF_TOKEN = Returns (Some token) ->
     let out := registerRequest c r in
     prefs (repo_of out) = prefs r /\
     match api_registerRequest (api c) token name with
     | Returns answer =>
         lastKnownChallenge (repo_of out) = Some (snd answer) /\
         delivered (events_of out) =
           match getRegisterIntent client (fst answer) with
           | Returns intent => [intent]
           | Throws _ => []
           end
     | Throws _ =>
         lastKnownChallenge (repo_of out) = lastKnownChallenge r /\
         delivered (events_of out) = []
     end)
  /\
  (forall credentialId,
     getString (prefs r) PREF_LOCAL_CREDENTIAL_ID = Returns credentialId ->
     let out := signinRequest c r in
     prefs (repo_of out) = prefs r /\
     match api_signinRequest (api c) name credentialId with
     | Returns answer =>
         lastKnownChallenge (repo_of out) = Some (snd answer) /\
         delivered (events_of out) =
           match getSignIntent client (fst answer) with
           | Returns intent => [intent]
           | Throws _ => []
           end
     | Throws _ =>
         lastKnownChallenge (repo_of out) = lastKnownChallenge r /\
         delivered (events_of out) = []
     end).
Proof.
  intros Hc Hu. split.
  - intros token Ht. cbv zeta.
    unfold_ops. simpl. rewrite Hc. simpl. rewrite Ht. simpl. rewrite Hu. simpl.
    destruct (api_registerRequest (api c) token name) as [answer|e]; simpl.
    + destruct (getRegisterIntent client (fst answer)) as [intent|e]; simpl;
        [auto|]. destruct (isException e); simpl; auto.
    + destruct (isException e); simpl; auto.
  - intros credentialId Hl. cbv zeta.
    unfold_ops. simpl. rewrite Hc. simpl. rewrite Hu. simpl. rewrite Hl. simpl.
    destruct (api_signinRequest (api c) name credentialId) as [answer|e]; simpl;
      [|auto].
    destruct (getSignIntent client (fst answer)) as [intent|e]; simpl; auto.
Qed.

Lemma requests_remember_challenge_witness :
  lastKnownChallenge
    (repo_of (registerRequest (with_api (answer_with "t0")) no_challenge_repo))
  = Some "challenge"
  /\
  lastKnownChallenge
    (repo_of (signinRequest (with_api (answer_with "t0")) signing_in_fresh_repo))
  = Some "challenge".
Proof.
  split.
  - destruct (requests_remember_challenge (with_api (answer_with "t0"))
                no_challenge_repo a_client "bob") as [Hregister _];
      [reflexivity|reflexivity|].
    apply (Hregister "t0"). reflexivity.
  - destruct (requests_remember_challenge (with_api (answer_with "t0"))
                signing_in_fresh_repo a_client "bob") as [_ Hsignin];
      [reflexivity|reflexivity|].
    apply (Hsignin (Some "id0")). reflexivity.
Defined.

(** X15. The challenge a request remembered is the one the next response
    hands to the server: after a registration request that delivered its
    intent, [registerResponse] calls the server with the stored token, that
    challenge and the deserialised response, whatever the server then
    answers; likewise, with the user name stored and a token or none,
    [signinResponse] after a sign-in request. *)
Theorem challenge_handover (c c' : Collaborators) (r : Repo) (data : Intent)
    (client : Fido2ApiClient) (name : string) :
  fido2ApiClient r = Some client ->
  getString (prefs r) PREF_USERNAME = Returns (Some name) ->
  (forall token answer intent bytes response,
     getString (prefs r) PREF_TOKEN = Returns (Some token) ->
     api_registerRequest (api c) token name = Returns answer ->
     getRegisterIntent client (fst answer) = Returns intent ->
     FIDO2_KEY_RESPONSE_EXTRA data = Some bytes ->
     deserializeAttestation c' bytes = Returns response ->
     calls (events_of (registerResponse c' data (repo_of (registerRequest c r)))) =
       [CallRegisterResponse token (snd answer) response])
  /\
  (forall credentialId answer intent response,
     getString (prefs r) PREF_LOCAL_CREDENTIAL_ID = Returns credentialId ->
     api_signinRequest (api c) name credentialId = Returns answer ->
     getSignIntent client (fst answer) = Returns intent ->
     deserializeAssertion c' (FIDO2_KEY_RESPONSE_EXTRA data) = Returns response ->
     calls (events_of (signinResponse c' data (repo_of (signinRequest c r)))) =
       [CallSigninResponse name (snd answer) response]).
Proof.
  intros Hc Hu. split.
  - intros token answer intent bytes response Ht Ha Hi Hb Hd.
    rewrite (registerRequest_run c r client token name answer intent Hc Ht Hu Ha Hi).
    unfold_ops. simpl. rewrite Ht. simpl. rewrite Hb. simpl. rewrite Hd. simpl.
    destruct (api_registerResponse _ _ _ _) as [?|[]]; reflexivity.
  - intros credentialId answer intent response Hl Ha Hi Hd.
    rewrite (signinRequest_run c r client name credentialId answer intent
               Hc Hu Hl Ha Hi).
    unfold_ops. simpl. rewrite Hu. simpl. rewrite Hd. simpl.
    destruct (api_signinResponse _ _ _ _) as [?|[]]; views; reflexivity.
Qed.

Lemma challenge_handover_witness :
  calls (events_of (registerResponse wrong_password (mkIntent (Some "attestation"))
                      (repo_of (registerRequest (with_api (answer_with "t0"))
                                  no_challenge_repo)))) =
    [CallRegisterResponse "t0" "challenge" (mkResponse "attestation" "attestation")]
  /\
  calls (events_of (signinResponse wrong_password (mkIntent (Some "assertion"))
                      (repo_of (signinRequest (with_api (answer_with "t0"))
                                  signing_in_fresh_repo)))) =
    [CallSigninResponse "bob" "challenge" (mkResponse "assertion" "assertion")].
Proof.
  split.
  - destruct (challenge_handover (with_api (answer_with "t0")) wrong_password
                no_challenge_repo (mkIntent (Some "attestation")) a_client "bob")
      as [Hregister _]; [reflexivity|reflexivity|].
    apply (Hregister "t0" ("options", "challenge") "options" "attestation");
      reflexivity.
  - destruct (challenge_handover (with_api (answer_with "t0")) wrong_password
                signing_in_fresh_repo (mkIntent (Some "assertion")) a_client "bob")
      as [_ Hsignin]; [reflexivity|reflexivity|].
    apply (Hsignin (Some "id0") ("options", "challenge") "options"
             (mkResponse "assertion" "assertion"));
      reflexivity.
Defined.

(** X16. No operation forgets the challenge: every operation but the two
    requests leaves it as it is, a response included, so the same challenge
    serves any number of responses; a request leaves a challenge where there
    was one. Only the end of the process loses it. *)
Theorem challenge_never_cleared (c : Collaborators) (op : Operation) (r : Repo) :
  (request_op op = false ->
   lastKnownChallenge (repo_of (run c op r)) = lastKnownChallenge r) /\
  (is_Some (lastKnownChallenge r) ->
   is_Some (lastKnownChallenge (repo_of (run c op r)))) /\
  lastKnownChallenge (restart r) = None.
Proof.
  split; [|split; [|reflexivity]].
  - intros Hop. destruct op; try discriminate Hop; run_ops; congruence.
  - intros Hsome. destruct op; run_ops; by eauto.
Qed.

Lemma challenge_never_cleared_witness :
  lastKnownChallenge
    (repo_of (run (with_api (answer_with "t0"))
                (OpRegisterResponse (mkIntent (Some "attestation"))) signed_in_repo))
  = Some "challenge".
Proof.
  apply (challenge_never_cleared (with_api (answer_with "t0"))
           (OpRegisterResponse (mkIntent (Some "attestation"))) signed_in_repo).
  reflexivity.
Defined.

(** X17. A response that no request came before throws: with no challenge
    remembered, as after a restart of the process, [registerResponse] with a
    stored token and [signinResponse] with a stored user name throw a
    [NullPointerException] that is not logged, before the payload is read or
    the server called; the repository is unchanged and the flag is reset. *)
Theorem response_without_request (c : Collaborators) (r : Repo) (data : Intent) :
  lastKnownChallenge r = None ->
  (forall token,
     getString (prefs r) PREF_TOKEN = Returns (Some token) ->
     registerResponse c data r =
       (Throws NullPointerException, r, [Posted true; Posted false]))
  /\
  (forall name,
     getString (prefs r) PREF_USERNAME = Returns (Some name) ->
     signinResponse c data r =
       (Throws NullPointerException, r, [Posted true; Posted false])).
Proof.
  intros Hc. split.
  - intros token Ht. unfold_ops. simpl. rewrite Ht. simpl. rewrite Hc.
    destruct r; reflexivity.
  - intros name Hu. unfold_ops. simpl. rewrite Hu. simpl. rewrite Hc.
    destruct r; reflexivity.
Qed.

Lemma response_without_request_witness :
  signinResponse (with_api (answer_with "t0")) (mkIntent (Some "assertion"))
    (restart signed_in_repo) =
    (Throws NullPointerException, restart signed_in_repo,
     [Posted true; Posted false]).
Proof.
  destruct (response_without_request (with_api (answer_with "t0"))
              (restart signed_in_repo) (mkIntent (Some "assertion")))
    as [_ Hsignin]; [reflexivity|].
  apply (Hsignin "bob"). reflexivity.
Defined.

(** ** The client *)

(** X18. An intent is delivered only by a request, only with a client
    set, and only when the block returns; an operation delivers at most one.
    Without a client a request does nothing at all: nothing is posted, called
    or logged, and the repository stays as it is. *)
Theorem delivery_needs_client (c : Collaborators) (op : Operation) (r : Repo) :
  let out := run c op r in
  (length (delivered (events_of out)) <= 1)%nat /\
  (delivered (events_of out) <> [] ->
   request_op op = true /\ is_Some (fido2ApiClient r) /\
   result_of out = Returns tt) /\
  (request_op op = true -> fido2ApiClient r = None ->
   out = (Returns tt, r, [])).
Proof.
  cbv zeta. split; [|split].
  - destruct op; run_ops; views; lia.
  - destruct op; run_ops; views; intros Hd; try contradiction;
      try congruence; by eauto.
  - intros Hop Hc. destruct op; try discriminate Hop; unfold_ops; simpl;
      now rewrite Hc.
Qed.

Lemma delivery_needs_client_witness :
  run (with_api (answer_with "t0")) OpSigninRequest (restart signed_in_repo) =
    (Returns tt, restart signed_in_repo, []).
Proof.
  apply (delivery_needs_client (with_api (answer_with "t0")) OpSigninRequest
           (restart signed_in_repo)); reflexivity.
Defined.

(** ** The listeners *)

Lemma notifications_of_run (c : Collaborators) (op : Operation) (r : Repo) :
  notifications (events_of (run c op r)) =
    match spec_transition c op r with
    | Some s => broadcast (signInStateListeners r) s
    | None => []
    end.
Proof.
  destruct op; unfold spec_transition; run_ops; trace_simpl;
    try reflexivity; congruence.
Qed.

Lemma remove_first_fresh (l : Listener) (ls : list Listener) :
  ~ In l ls -> remove_first l (ls ++ [l]) = ls.
Proof.
  induction ls as [|x ls IH]; simpl; intros Hn.
  - now rewrite Nat.eqb_refl.
  - destruct (Nat.eqb_spec x l) as [->|Hne]; [exfalso; auto|].
    f_equal. apply IH. auto.
Qed.

Lemma count_occ_remove_first (l : Listener) (ls : list Listener) :
  count_occ Nat.eq_dec (remove_first l ls) l =
    Nat.pred (count_occ Nat.eq_dec ls l).
Proof.
  induction ls as [|x ls IH]; simpl; [reflexivity|].
  destruct (Nat.eqb_spec x l) as [->|Hne].
  - destruct (Nat.eq_dec l l); [reflexivity|congruence].
  - simpl. destruct (Nat.eq_dec x l); [congruence|exact IH].
Qed.

Lemma count_occ_remove_first_other (l l' : Listener) (ls : list Listener) :
  l' <> l ->
  count_occ Nat.eq_dec (remove_first l ls) l' = count_occ Nat.eq_dec ls l'.
Proof.
  intros Hne. induction ls as [|x ls IH]; simpl; [reflexivity|].
  destruct (Nat.eqb_spec x l) as [->|Hx].
  - destruct (Nat.eq_dec l l'); [congruence|reflexivity].
  - simpl. destruct (Nat.eq_dec x l'); now rewrite IH.
Qed.

(** X19. A listener is told a state once for each time it stands in the
    list: registered twice it hears every state twice, and one [onInactive]
    takes out one registration only, the oldest, leaving the others and
    every other listener as they were. *)
Theorem told_once_per_registration (c : Collaborators) (op : Operation) (r : Repo)
    (l : Listener) :
  received l (events_of (run c op r)) =
    match spec_transition c op r with
    | Some s => repeat s (count_occ Nat.eq_dec (signInStateListeners r) l)
    | None => []
    end
  /\
  count_occ Nat.eq_dec (signInStateListeners (repo_of (onActive l r))) l =
    S (count_occ Nat.eq_dec (signInStateListeners r) l)
  /\
  count_occ Nat.eq_dec (signInStateListeners (repo_of (onInactive l r))) l =
    Nat.pred (count_occ Nat.eq_dec (signInStateListeners r) l)
  /\
  (forall l', l' <> l ->
     count_occ Nat.eq_dec (signInStateListeners (repo_of (onActive l r))) l' =
       count_occ Nat.eq_dec (signInStateListeners r) l' /\
     count_occ Nat.eq_dec (signInStateListeners (repo_of (onInactive l r))) l' =
       count_occ Nat.eq_dec (signInStateListeners r) l').
Proof.
  split; [|split; [|split]].
  - unfold received. rewrite notifications_of_run.
    destruct (spec_transition c op r); [apply received_broadcast|reflexivity].
  - unfold repo_of. simpl. rewrite count_occ_app. simpl.
    destruct (Nat.eq_dec l l); [|congruence].
    rewrite Nat.add_1_r. reflexivity.
  - apply count_occ_remove_first.
  - intros l' Hne. split.
    + unfold repo_of. simpl. rewrite count_occ_app. simpl.
      destruct (Nat.eq_dec l l'); [congruence|].
      rewrite Nat.add_0_r. reflexivity.
    + now apply count_occ_remove_first_other.
Qed.

(** X20. No operation of the repository touches the list of listeners:
    only [onActive] and [onInactive] do. A listener that was not registered
    and registers, then deregisters, leaves the list as it was; and from
    then on no operation tells it anything. *)
Theorem registration_round_trip (c : Collaborators) (op : Operation) (r : Repo)
    (l : Listener) :
  (registration_op op = false ->
   signInStateListeners (repo_of (run c op r)) = signInStateListeners r)
  /\
  (~ In l (signInStateListeners r) ->
   signInStateListeners (repo_of (onInactive l (repo_of (onActive l r)))) =
     signInStateListeners r /\
   received l (events_of (run c op (repo_of (onInactive l (repo_of (onActive l r))))))
     = []).
Proof.
  split.
  - intros Hop. destruct op; try discriminate Hop; run_ops; reflexivity.
  - intros Hfresh.
    assert (Hls : signInStateListeners
                    (repo_of (onInactive l (repo_of (onActive l r)))) =
                  signInStateListeners r).
    { unfold repo_of. simpl. now apply remove_first_fresh. }
    split; [exact Hls|].
    unfold received. rewrite notifications_of_run, Hls.
    destruct (spec_transition _ _ _); [|reflexivity].
    rewrite received_broadcast.
    now rewrite (proj1 (count_occ_not_In Nat.eq_dec _ _) Hfresh).
Qed.

Lemma registration_round_trip_witness :
  received 3%nat
    (events_of (run wrong_password OpSignOut
                  (repo_of (onInactive 3%nat (repo_of (onActive 3%nat signed_in_repo))))))
  = [].
Proof.
  apply (registration_round_trip wrong_password OpSignOut signed_in_repo 3%nat).
  simpl. intuition discriminate.
Defined.

(** ** The types in the store *)








(** * BoardWriteForm.jsx *)

Lemma starts_app (p us : list N) :
  BoardWriteForm.starts p us = true <-> exists rest, us = p ++ rest.
Proof.
  revert us. induction p as [|a p IH]; intros us; simpl.
  - split; [eauto|reflexivity].
  - destruct us as [|b us]; [split; [discriminate|intros [? ?]; discriminate]|].
    rewrite andb_true_iff, N.eqb_eq, IH. split.
    + intros [-> [rest ->]]. eauto.
    + intros [rest E]. injection E as -> ->. eauto.
Qed.

Lemma at_extension_spec (us : list N) :
  BoardWriteForm.at_extension us = true <->
  exists ext rest,
    In ext BoardWriteForm.extensions /\
    us = BoardWriteForm.utf16 (String "." ext) ++ rest.
Proof.
  unfold BoardWriteForm.at_extension. rewrite existsb_exists. split.
  - intros (ext & Hin & Hp). apply starts_app in Hp as [rest ->]. eauto.
  - intros (ext & rest & Hin & ->). exists ext. split; [exact Hin|].
    apply starts_app. eauto.
Qed.

Lemma imgExp_from_spec (us : list N) :
  forall before,
    BoardWriteForm.imgExp_from before us = true <->
    (before = true /\ BoardWriteForm.at_extension us = true) \/
    exists pre u tail,
      us = pre ++ u :: tail /\ BoardWriteForm.isSpace u = false /\
      BoardWriteForm.at_extension tail = true.
Proof.
  induction us as [|a us IH]; intros before; simpl.
  - rewrite orb_false_r, andb_true_iff. split; [auto|].
    intros [H|(pre & u & tail & E & _)]; [exact H|].
    destruct pre; discriminate.
  - rewrite orb_true_iff, andb_true_iff, IH. split.
    + intros [H|[[Ha Hs]|(pre & u & tail & -> & Hu & Ht)]]; [auto| |].
      * right. exists [], a, us. apply negb_true_iff in Ha. auto.
      * right. exists (a :: pre), u, tail. auto.
    + intros [H|(pre & u & tail & E & Hu & Ht)]; [auto|]. right.
      destruct pre as [|b pre]; simpl in E; injection E as -> ->.
      * left. rewrite Hu. auto.
      * right. eauto 6.
Qed.

(** Names of the page's everyday kind: Hangul before the dot is no white
    space, the ideographic space U+3000 is. *)
Example imgExp_hangul :
  BoardWriteForm.utf16 "광고.jpg" = [44305; 44256; 46; 106; 112; 103]%N /\
  BoardWriteForm.imgExp "광고.jpg" = true /\
  BoardWriteForm.utf16 "　.jpg" = [12288; 46; 106; 112; 103]%N /\
  BoardWriteForm.imgExp "　.jpg" = false /\
  BoardWriteForm.imgExp "photo.png.exe" = true /\
  BoardWriteForm.imgExp ".png" = false /\
  BoardWriteForm.imgExp "notes.txt" = false.
Proof. repeat split; reflexivity. Qed.

(** X22. The test of the file name accepts exactly the names in which some
    code unit that is no white space is followed by a dot and one of [jpg],
    [gif], [png], [JPG], [GIF], [PNG]: the extension need not end the name.
    A dot that starts the name counts for nothing: the name is tested as if
    the dot were not there. *)
Theorem imgExp_accepts (name : string) :
  (BoardWriteForm.imgExp name = true <->
   exists pre u ext rest,
     In ext BoardWriteForm.extensions /\ BoardWriteForm.isSpace u = false /\
     BoardWriteForm.utf16 name =
       pre ++ u :: BoardWriteForm.utf16 (String "." ext) ++ rest)
  /\
  (forall ext rest, In ext BoardWriteForm.extensions ->
     BoardWriteForm.imgExp (String "." (ext +:+ rest)) =
       BoardWriteForm.imgExp (ext +:+ rest)).
Proof.
  split.
  - unfold BoardWriteForm.imgExp. rewrite imgExp_from_spec. split.
    + intros [[H _]|(pre & u & tail & -> & Hu & Ht)]; [discriminate|].
      apply at_extension_spec in Ht as (ext & rest & Hin & ->). eauto 8.
    + intros (pre & u & ext & rest & Hin & Hu & ->). right.
      exists pre, u, (BoardWriteForm.utf16 (String "." ext) ++ rest).
      repeat split; auto. apply at_extension_spec. eauto.
  - intros ext rest Hin. unfold BoardWriteForm.imgExp.
    destruct Hin as [<-|[<-|[<-|[<-|[<-|[<-|[]]]]]]]; reflexivity.
Qed.

(** X23. [writeBoard] posts at most one request, and none exactly when the
    title is empty or when, the content not being empty, the first file has
    a name that is not empty and fails the test. An empty content alone
    does not stop the request: after the alert and the focus it is posted,
    its file unchecked. The call ends in a [TypeError] exactly when the title
    is empty, after the alert. *)
Theorem writeBoard_posts (page : BoardWriteForm.Page) :
  let out := BoardWriteForm.writeBoard page in
  (length (BoardWriteForm.posts (fst out)) <= 1)%nat /\
  (BoardWriteForm.posts (fst out) = [] <->
   BoardWriteForm.boardTitle page = "" \/
   (BoardWriteForm.boardContent page <> "" /\ BoardWriteForm.refused page = true)) /\
  (snd out = BoardWriteForm.TypeError <-> BoardWriteForm.boardTitle page = "") /\
  (BoardWriteForm.boardTitle page = "" ->
   BoardWriteForm.alerts (fst out) = [BoardWriteForm.TITLE_ALERT]) /\
  (BoardWriteForm.boardTitle page <> "" -> BoardWriteForm.boardContent page = "" ->
   BoardWriteForm.alerts (fst out) = [BoardWriteForm.CONTENT_ALERT] /\
   length (BoardWriteForm.posts (fst out)) = 1%nat).
Proof.
  cbv zeta. unfold BoardWriteForm.writeBoard, BoardWriteForm.refused.
  destruct (String.eqb_spec (BoardWriteForm.boardTitle page) "") as [Ht|Ht];
    destruct (String.eqb_spec (BoardWriteForm.boardContent page) "") as [Hc|Hc];
    destruct (BoardWriteForm.files page) as [|file fs];
    destruct (BoardWriteForm.query page) as [q|];
    try destruct (negb (BoardWriteForm.imgExp file) && negb (String.eqb file ""));
    simpl; repeat split; try lia; try tauto; try congruence; try discriminate;
    intuition (try discriminate; try congruence).
Qed.

(** With a Hangul file name accepted, the page is posted. *)
Example writeBoard_hangul :
  BoardWriteForm.refused BoardWriteForm.korean_page = false /\
  BoardWriteForm.writeBoard BoardWriteForm.korean_page =
    ([BoardWriteForm.ConsoleLog;
      BoardWriteForm.Post "http://host/board/write"
        [("headers", BoardWriteForm.Text "[object Object]");
         ("_id", BoardWriteForm.Text "alice");
         ("title", BoardWriteForm.Text "title");
         ("content", BoardWriteForm.Text "text");
         ("imgFile", BoardWriteForm.File "광고.jpg");
         ("imgPath", BoardWriteForm.Text "광고.jpg")]],
     BoardWriteForm.Returned).
Proof. split; reflexivity. Qed.


